(** * gafetes-v2: attendee validation (excel.py) and QR acquisition (qrs.py)

    A shallow embedding of the two modules and the properties checked on
    them.  Python [str] values are lists of Unicode code points, [bytes]
    are lists of bytes, dictionaries are finite maps, and the file system
    and the network are an explicit world threaded through every call. *)

From Stdlib Require Import ZArith QArith Ascii String List Lia.
From Stdlib Require DecimalString DecimalZ.
From stdpp Require Import gmap list fin_maps.

Local Open Scope Z_scope.

(** ** Python strings *)

Module PyStr.

(** A [str] is a sequence of code points. *)
Definition pystr := list N.

(** Literal helper: an ASCII literal as a [str]. *)
Definition py (s : string) : pystr :=
  map N_of_ascii (list_ascii_of_string s).

Fixpoint startswith (s p : pystr) {struct p} : bool :=
  match p, s with
  | [], _ => true
  | _ :: _, [] => false
  | c :: p', d :: s' => N.eqb d c && startswith s' p'
  end.

Definition endswith (s p : pystr) : bool := startswith (rev s) (rev p).

(** [sub in s]. *)
Fixpoint contains (s sub : pystr) : bool :=
  startswith s sub ||
  match s with
  | [] => false
  | _ :: s' => contains s' sub
  end.

(** [s.split(sep)[-1]] for a non-empty [sep]: occurrences are found from
    the left without overlap; the last piece is what follows the last one
    found.  [fuel] bounds the number of characters still to scan. *)
Fixpoint split_last_from (fuel : nat) (sep s cur : pystr) : pystr :=
  match fuel with
  | O => cur
  | S fuel' =>
      match s with
      | [] => cur
      | _ :: s' =>
          if startswith s sep
          then let rest := drop (length sep) s in
               split_last_from fuel' sep rest rest
          else split_last_from fuel' sep s' cur
      end
  end.

Definition split_last (s sep : pystr) : pystr :=
  split_last_from (length s) sep s s.

Fixpoint drop_while (f : N -> bool) (s : pystr) : pystr :=
  match s with
  | [] => []
  | c :: s' => if f c then drop_while f s' else s
  end.

(** [s.rstrip(c)] for a one-character argument. *)
Definition rstrip_char (c : N) (s : pystr) : pystr :=
  rev (drop_while (N.eqb c) (rev s)).

(** [s.replace(a, b)] for one-character [a] and [b]. *)
Definition replace_char (a b : N) (s : pystr) : pystr :=
  map (fun c => if N.eqb c a then b else c) s.

(** [s.replace(a, '')] for a one-character [a]. *)
Definition remove_char (a : N) (s : pystr) : pystr :=
  List.filter (fun c => negb (N.eqb c a)) s.

Definition in_range (lo hi c : N) : bool := (N.leb lo c && N.leb c hi)%bool.

(** [str.isspace] on one code point: the Unicode white space set. *)
Definition isspace (c : N) : bool :=
  (in_range 9 13 c || in_range 28 32 c || N.eqb c 133 || N.eqb c 160
   || N.eqb c 5760 || in_range 8192 8202 c || N.eqb c 8232 || N.eqb c 8233
   || N.eqb c 8239 || N.eqb c 8287 || N.eqb c 12288)%bool.

(** [s.strip()] without argument. *)
Definition strip (s : pystr) : pystr :=
  rev (drop_while isspace (rev (drop_while isspace s))).

(** Uppercase of one code point.  The table is the Unicode one on ASCII
    and Latin-1, on dotless i and long s, and on the Latin ligatures
    U+FB00..U+FB06 (every code point whose uppercase is written with
    ASCII or Latin-1 letters); the remaining code points, whose uppercase
    lies outside that range, are kept as they are. *)
Definition upper_cp (c : N) : pystr :=
  if in_range 97 122 c then [c - 32]%N
  else if N.eqb c 181 then [924]%N
  else if N.eqb c 223 then [83; 83]%N
  else if N.eqb c 247 then [c]
  else if in_range 224 254 c then [c - 32]%N
  else if N.eqb c 255 then [376]%N
  else if N.eqb c 305 then [73]%N
  else if N.eqb c 383 then [83]%N
  else if N.eqb c 64256 then [70; 70]%N
  else if N.eqb c 64257 then [70; 73]%N
  else if N.eqb c 64258 then [70; 76]%N
  else if N.eqb c 64259 then [70; 70; 73]%N
  else if N.eqb c 64260 then [70; 70; 76]%N
  else if N.eqb c 64261 then [83; 84]%N
  else if N.eqb c 64262 then [83; 84]%N
  else [c].

(** [s.upper()]. *)
Definition upper (s : pystr) : pystr := flat_map upper_cp s.

(** [sep.join(l)]. *)
Fixpoint join (sep : pystr) (l : list pystr) : pystr :=
  match l with
  | [] => []
  | [x] => x
  | x :: l' => x ++ sep ++ join sep l'
  end.

(** [str(n)] for an [int]. *)
Definition str_of_Z (z : Z) : pystr :=
  py (DecimalString.NilEmpty.string_of_int (Z.to_int z)).

Definition eqb (a b : pystr) : bool := bool_decide (a = b).

End PyStr.
Import PyStr.

(** ** excel.py *)

Module Excel.

(** Cell values and dictionary values that reach this module: [None],
    the missing-value marker NaN, booleans, integers and strings
    (non-NaN floats are not represented). *)
Inductive pyval :=
  | PyNone
  | PyNaN
  | PyBool (b : bool)
  | PyInt (z : Z)
  | PyStr (s : pystr).

(** [pd.isna(v)] on a scalar. *)
Definition isna (v : pyval) : bool :=
  match v with
  | PyNone | PyNaN => true
  | _ => false
  end.

(** Truth value of [v] ([bool(v)]); NaN is a non-zero float. *)
Definition truthy (v : pyval) : bool :=
  match v with
  | PyNone => false
  | PyNaN => true
  | PyBool b => b
  | PyInt z => negb (Z.eqb z 0)
  | PyStr s => match s with [] => false | _ => true end
  end.

(** [str(v)]. *)
Definition str (v : pyval) : pystr :=
  match v with
  | PyNone => py "None"
  | PyNaN => py "nan"
  | PyBool true => py "True"
  | PyBool false => py "False"
  | PyInt z => str_of_Z z
  | PyStr s => s
  end.

Definition REQUIRED_COLUMNS : list pystr :=
  Eval cbv in
  [ py "Puesto"; py "PrimerNombre"; py "PrimerApellido"; py "Oficina";
    py "Tour"; py "Mesa"; py "LLevaConyugue"; py "PrimerNombreConyugue";
    py "PrimerApellidoConyugue"; py "QR"; py "QR_Conyugue" ].

(** The second token is S followed by I with acute accent (U+00CD). *)
Definition TRUE_VALUES : list pystr :=
  Eval cbv in
  [ py "SI"; py "S" ++ [205%N]; py "S"; py "YES"; py "Y"; py "1";
    py "TRUE"; py "VERDADERO" ].

Definition normalize_column_name (col : pystr) : pystr := strip col.

(** [validate_columns]: the required columns with no header equal to
    them up to case; the caller raises [ValueError] when the list is not
    empty. *)
Definition missing_columns (headers : list pystr) : list pystr :=
  List.filter
    (fun required_col =>
       negb (existsb (fun header => PyStr.eqb (upper header) (upper required_col))
                     (map normalize_column_name headers)))
    REQUIRED_COLUMNS.

Definition parse_boolean (value : pyval) : bool :=
  if isna value then false
  else let str_value := upper (strip (str value)) in
       bool_decide (str_value ∈ TRUE_VALUES).

(** A row is a [dict]; [row.get(k)] is [None] for an absent key. *)
Definition row_get (row : gmap pystr pyval) (k : pystr) : pyval :=
  default PyNone (row !! k).

(** [not row.get(k) or pd.isna(row[k])]: the second operand is only
    evaluated when [row.get(k)] is truthy, hence when [k] is present. *)
Definition is_blank (row : gmap pystr pyval) (k : pystr) : bool :=
  negb (truthy (row_get row k)) || isna (row_get row k).

Definition kPuesto := Eval cbv in py "Puesto".
Definition kPrimerNombre := Eval cbv in py "PrimerNombre".
Definition kPrimerApellido := Eval cbv in py "PrimerApellido".
Definition kOficina := Eval cbv in py "Oficina".
Definition kTour := Eval cbv in py "Tour".
Definition kMesa := Eval cbv in py "Mesa".
Definition kLLevaConyugue := Eval cbv in py "LLevaConyugue".
Definition kPrimerNombreConyugue := Eval cbv in py "PrimerNombreConyugue".
Definition kPrimerApellidoConyugue := Eval cbv in py "PrimerApellidoConyugue".
Definition kQR := Eval cbv in py "QR".
Definition kQR_Conyugue := Eval cbv in py "QR_Conyugue".

(** The word "vacio" with its accented i (U+00ED). *)
Definition vacio : pystr := Eval cbv in py "vac" ++ [237%N] ++ py "o".

Definition msg_empty (k : pystr) : pystr := k ++ py " " ++ vacio.
Definition msg_spouse_empty (k : pystr) : pystr :=
  py "LLevaConyugue=True pero " ++ k ++ py " " ++ vacio.

(** The [errors] list built by [validate_row], in the order of the
    source's [append] calls. *)
Definition row_errors (row : gmap pystr pyval) : list pystr :=
  (if is_blank row kPrimerNombre then [msg_empty kPrimerNombre] else [])
  ++ (if is_blank row kPrimerApellido then [msg_empty kPrimerApellido] else [])
  ++ (if is_blank row kQR then [msg_empty kQR] else [])
  ++ (if truthy (row_get row kLLevaConyugue) then
        (if is_blank row kPrimerNombreConyugue
         then [msg_spouse_empty kPrimerNombreConyugue] else [])
        ++ (if is_blank row kPrimerApellidoConyugue
            then [msg_spouse_empty kPrimerApellidoConyugue] else [])
        ++ (if is_blank row kQR_Conyugue
            then [msg_spouse_empty kQR_Conyugue] else [])
      else []).

Definition validate_row (row : gmap pystr pyval) (row_index : Z) : option pystr :=
  match row_errors row with
  | [] => None
  | errors =>
      Some (py "Fila " ++ str_of_Z (row_index + 2) ++ py ": "
            ++ join (py "; ") errors)
  end.

(** [str(row[k]) if not pd.isna(row[k]) else ""]. *)
Definition cell_text (v : pyval) : pyval :=
  PyStr (if isna v then [] else str v).

(** The [entry] dictionary built for one data-frame row; [row k] is the
    cell [row[k]]: every required column exists once [validate_columns]
    has passed, and [read_attendees] below only gets here when a single
    column carries it, so that the cell is a scalar. *)
Definition make_entry (row : pystr -> pyval) : gmap pystr pyval :=
  <[kPuesto := cell_text (row kPuesto)]>
  (<[kPrimerNombre := cell_text (row kPrimerNombre)]>
  (<[kPrimerApellido := cell_text (row kPrimerApellido)]>
  (<[kOficina := cell_text (row kOficina)]>
  (<[kTour := cell_text (row kTour)]>
  (<[kMesa := cell_text (row kMesa)]>
  (<[kLLevaConyugue := PyBool (parse_boolean (row kLLevaConyugue))]>
  (<[kPrimerNombreConyugue := cell_text (row kPrimerNombreConyugue)]>
  (<[kPrimerApellidoConyugue := cell_text (row kPrimerApellidoConyugue)]>
  (<[kQR := cell_text (row kQR)]>
  (<[kQR_Conyugue := cell_text (row kQR_Conyugue)]> ∅)))))))))).

(** The row loop of [read_attendees] over the data frame [(idx, row)]:
    the accepted entries and the messages of the rejected rows. *)
Fixpoint read_rows (rows : list (Z * (pystr -> pyval)))
  : list (gmap pystr pyval) * list pystr :=
  match rows with
  | [] => ([], [])
  | (idx, row) :: rest =>
      let entry := make_entry row in
      let '(attendees, invalid_rows) := read_rows rest in
      match validate_row entry idx with
      | Some error_msg => (attendees, error_msg :: invalid_rows)
      | None => (entry :: attendees, invalid_rows)
      end
  end.

(** A data frame after [pd.read_excel]: its headers and its rows under
    the default integer index 0, 1, 2, ...  A row gives the cell under a
    required column that a single header is renamed to. *)
Record dataframe := {
  df_columns : list pystr;
  df_rows : list (pystr -> pyval)
}.

Definition iterrows (df : dataframe) : list (Z * (pystr -> pyval)) :=
  imap (fun i row => (Z.of_nat i, row)) (df_rows df).

(** The headers that [column_mapping] renames to [required_col] (source
    lines 161-170), and the required columns that end up on two or more
    columns of the frame. *)
Definition renamed_to (required_col : pystr) (headers : list pystr)
  : list pystr :=
  List.filter (fun df_col => PyStr.eqb (upper df_col) (upper required_col))
              (map normalize_column_name headers).

Definition doubled_columns (headers : list pystr) : list pystr :=
  List.filter
    (fun required_col => (1 <? length (renamed_to required_col headers))%nat)
    REQUIRED_COLUMNS.

(** The two [ValueError]s that leave [read_attendees] (line 212): the one
    of [validate_columns], and the one pandas raises for the truth value
    of a Series. *)
Inductive exn :=
  | ValueError (missing : list pystr)
  | SeriesTruthValueError.

(** [read_attendees] from the parsed sheet on: the column gate, then the
    row loop; the result is the [attendees] list.  Under a required
    column carried by two columns of the frame, [row[column]] is a Series
    and building the entry of the first row raises; a sheet without rows
    never gets there. *)
Definition read_attendees (df : dataframe) : exn + list (gmap pystr pyval) :=
  match missing_columns (df_columns df) with
  | [] =>
      match doubled_columns (df_columns df), df_rows df with
      | _ :: _, _ :: _ => inl SeriesTruthValueError
      | _, _ => inr (fst (read_rows (iterrows df)))
      end
  | missing => inl (ValueError missing)
  end.

End Excel.

(** ** qrs.py *)

Module Qrs.

Definition bytes := list Byte.byte.

(** What one [requests.get] yields: a timeout, another
    [RequestException], a response with its status code and body, or an
    [Exception] that is not a [RequestException] (urllib3's
    [LocationParseError] for a malformed URL, say) with its text. *)
Inductive response :=
  | Timeout
  | RequestError
  | Http (status : Z) (content : bytes)
  | OtherError (text : pystr).

Inductive event :=
  | EvGet (url : pystr)
  | EvSleep (seconds : Z)
  | EvMkdir (path : pystr)
  | EvRead (path : pystr)
  | EvWrite (path : pystr) (data : bytes)
  | EvUnlink (path : pystr).

Record file := { f_data : bytes; f_mtime : Q }.

(** The world the module acts on.  Regular files are keyed by the path
    string the code builds; the strings are not normalised, so two
    spellings of one path are two keys.  [w_locked] holds the paths whose
    [unlink] raises.  [w_write_error p] is the text of the [OSError] that
    [open(p, 'wb')] raises when the code gets to it, if it raises: the
    directory of [p] does not exist (only [qrs_dir] is ever made, so this
    is the fate of a key with a slash), [p] is a directory, or the
    permission is missing.  [w_clock] is what [time.time()] returns;
    [w_log] records the effects, latest first.  Opening an existing file
    for reading and [makedirs] are taken to succeed. *)
Record world := {
  w_files : gmap pystr file;
  w_dirs : gset pystr;
  w_locked : gset pystr;
  w_write_error : pystr -> option pystr;
  w_clock : Q;
  w_log : list event
}.

Definition log (e : event) (w : world) : world :=
  {| w_files := w_files w; w_dirs := w_dirs w; w_locked := w_locked w;
     w_write_error := w_write_error w;
     w_clock := w_clock w; w_log := e :: w_log w |}.

(** What a successful [open(path, 'wb')] and [write] leave. *)
Definition write_file (path : pystr) (data : bytes) (w : world) : world :=
  {| w_files := <[path := {| f_data := data; f_mtime := w_clock w |}]> (w_files w);
     w_dirs := w_dirs w; w_locked := w_locked w;
     w_write_error := w_write_error w; w_clock := w_clock w;
     w_log := EvWrite path data :: w_log w |}.

Definition makedirs (path : pystr) (w : world) : world :=
  {| w_files := w_files w; w_dirs := {[path]} ∪ w_dirs w;
     w_locked := w_locked w; w_write_error := w_write_error w;
     w_clock := w_clock w;
     w_log := EvMkdir path :: w_log w |}.

Definition unlink (path : pystr) (w : world) : world :=
  {| w_files := delete path (w_files w); w_dirs := w_dirs w;
     w_locked := w_locked w; w_write_error := w_write_error w;
     w_clock := w_clock w;
     w_log := EvUnlink path :: w_log w |}.

Definition is_get (e : event) : bool :=
  match e with EvGet _ => true | _ => false end.

Definition requests_made (w : world) : nat :=
  length (List.filter is_get (w_log w)).

Definition QR_BASE_URL (codigo : pystr) : pystr :=
  py "https://evento-directores.qualitaseventos.mx/downloadQr/" ++ codigo ++ py "/".
Definition MAX_RETRIES : Z := 2.
Definition RETRY_DELAY : Z := 1.

Definition slash : N := 47%N.
Definition colon : N := 58%N.
Definition underscore : N := 95%N.

(** [os.path.join(a, b)] (POSIX). *)
Definition path_join (a b : pystr) : pystr :=
  if startswith b [slash] then b
  else if (match a with [] => true | _ => false end || endswith a [slash])%bool
       then a ++ b
       else a ++ [slash] ++ b.

Definition png : pystr := Eval cbv in py ".png".
Definition local_png : pystr := Eval cbv in py "_local.png".
Definition local_suffix : pystr := Eval cbv in py "_local".
Definition downloadQr : pystr := Eval cbv in py "/downloadQr/".

(** The cache key [codigo] and the download [url] of an identifier. *)
Definition codigo_url (qr_code_or_path : pystr) : pystr * pystr :=
  if (startswith qr_code_or_path (py "http://")
      || startswith qr_code_or_path (py "https://"))%bool
  then
    let url := qr_code_or_path in
    if contains url downloadQr
    then (rstrip_char slash (split_last url downloadQr), url)
    else (remove_char colon (replace_char slash underscore qr_code_or_path), url)
  else (qr_code_or_path, QR_BASE_URL qr_code_or_path).

Definition codigo_of (q : pystr) : pystr := fst (codigo_url q).
Definition url_of (q : pystr) : pystr := snd (codigo_url q).

(** [f"{codigo}.png"] and [f"{codigo}_local.png"] under [qrs_dir]. *)
Definition valid_path (qrs_dir codigo : pystr) : pystr :=
  path_join qrs_dir (codigo ++ png).
Definition fallback_path (qrs_dir codigo : pystr) : pystr :=
  path_join qrs_dir (codigo ++ local_png).

Inductive strategy := Download | Cache.

(** The exceptions that leave [get_qr_image]: the critical error of
    line 169, an exception of [requests.get] that the retry loop does not
    catch, the [OSError] of a cache write, and the exception of the local
    renderer.  [str_of_error] is [str(e)]. *)
Inductive error :=
  | CriticalError (msg : pystr)
  | RequestsError (text : pystr)
  | OSError (path text : pystr)
  | RenderError (text : pystr).

Definition str_of_error (e : error) : pystr :=
  match e with
  | CriticalError msg => msg
  | RequestsError text | OSError _ text | RenderError text => text
  end.

(** A call either returns the image bytes or raises. *)
Inductive result :=
  | Ok (data : bytes)
  | Raise (e : error).

(** The text of the critical error, accented letters as code points. *)
Definition error_msg (codigo : pystr) : pystr :=
  py " ERROR CR" ++ [205%N] ++ py "TICO: No se pudo descargar el QR del servidor para c"
  ++ [243%N] ++ py "digo '" ++ codigo ++ py "'. "
  ++ py "Este QR es necesario para el escaneo en el evento. "
  ++ py "Por favor verifica tu conexi" ++ [243%N]
  ++ py "n a internet y que el servidor est" ++ [233%N] ++ py " disponible.".

Section Resolver.

(** The remote server: its answer to a request for [url], given how many
    requests were made before.  The local QR renderer: the PNG bytes for
    a payload, or the text of the exception it raises (a payload beyond
    the capacity of a QR code). *)
Variable server : pystr -> nat -> response.
Variable generate_qr_local : pystr -> pystr + bytes.

Definition http_get (url : pystr) (w : world) : response * world :=
  (server url (requests_made w), log (EvGet url) w).

(** [raise_for_status] raises for 4xx and 5xx. *)
Definition is_error_status (status : Z) : bool :=
  ((400 <=? status) && (status <? 600))%bool.

(** The retry loop with [remaining] iterations left; the pause is taken
    after a failed attempt that is not the last.  The loop returns the
    body, returns [None], or lets through the exception it does not
    catch. *)
Fixpoint download_loop (url : pystr) (remaining : nat) (w : world)
  : (error + option bytes) * world :=
  match remaining with
  | O => (inr None, w)
  | S k =>
      let '(r, w1) := http_get url w in
      let retry :=
        download_loop url k
          (match k with O => w1 | S _ => log (EvSleep RETRY_DELAY) w1 end) in
      match r with
      | Http status content =>
          if is_error_status status then retry else (inr (Some content), w1)
      | Timeout | RequestError => retry
      | OtherError text => (inl (RequestsError text), w1)
      end
  end.

Definition download_qr_from_url (url : pystr) (retries : Z) (w : world)
  : (error + option bytes) * world :=
  download_loop url (Z.to_nat retries) w.

(** [if strategy == "cache": with open(path, 'wb') as f: f.write(data)]. *)
Definition cache_write (strat : strategy) (path : pystr) (data : bytes)
    (w : world) : error + world :=
  match strat with
  | Download => inr w
  | Cache =>
      match w_write_error w path with
      | Some text => inl (OSError path text)
      | None => inr (write_file path data w)
      end
  end.

(** [get_qr_image] from the download on (source lines 148-183). *)
Definition download_or_fallback (qr_code_or_path codigo url : pystr)
    (strat : strategy) (qrs_dir : pystr) (allow_fallback : bool) (w : world)
  : result * world :=
  let '(qr_bytes, w1) := download_qr_from_url url MAX_RETRIES w in
  match qr_bytes with
  | inl e => (Raise e, w1)
  | inr (Some (b :: bs)) =>
      let data := b :: bs in
      match cache_write strat (valid_path qrs_dir codigo) data w1 with
      | inl e => (Raise e, w1)
      | inr w2 => (Ok data, w2)
      end
  | inr _ =>
      if negb allow_fallback then (Raise (CriticalError (error_msg codigo)), w1)
      else
        match generate_qr_local qr_code_or_path with
        | inl text => (Raise (RenderError text), w1)
        | inr qr_buffer =>
            match cache_write strat (fallback_path qrs_dir codigo) qr_buffer w1 with
            | inl e => (Raise e, w1)
            | inr w2 => (Ok qr_buffer, w2)
            end
        end
  end.

Definition get_qr_image (qr_code_or_path : pystr) (strat : strategy)
    (qrs_dir : pystr) (allow_fallback : bool) (w : world) : result * world :=
  match w_files w !! qr_code_or_path with
  | Some f => (Ok (f_data f), log (EvRead qr_code_or_path) w)
  | None =>
      let '(codigo, url) := codigo_url qr_code_or_path in
      match strat with
      | Cache =>
          let w1 := makedirs qrs_dir w in
          let cache_path := valid_path qrs_dir codigo in
          match w_files w1 !! cache_path with
          | Some f =>
              if negb (endswith cache_path local_png)
              then (Ok (f_data f), log (EvRead cache_path) w1)
              else download_or_fallback qr_code_or_path codigo url strat
                     qrs_dir allow_fallback w1
          | None =>
              download_or_fallback qr_code_or_path codigo url strat
                qrs_dir allow_fallback w1
          end
      | Download =>
          download_or_fallback qr_code_or_path codigo url strat
            qrs_dir allow_fallback w
      end
  end.

Inductive pool_error :=
  | PoolValueError.

(** [fetch_single]: an exception becomes its message. *)
Definition fetch_single (code : pystr) (strat : strategy) (qrs_dir : pystr)
    (allow_fallback : bool) (w : world) : (pystr * (bytes + pystr)) * world :=
  match get_qr_image code strat qrs_dir allow_fallback w with
  | (Ok qr_buffer, w') => ((code, inl qr_buffer), w')
  | (Raise e, w') => ((code, inr (str_of_error e)), w')
  end.

(** The pool's tasks, run one after the other in the order [order] in
    which they complete; [results[code] = result] after each. *)
Fixpoint run_pool (order : list pystr) (strat : strategy) (qrs_dir : pystr)
    (allow_fallback : bool) (results : gmap pystr (bytes + pystr)) (w : world)
  : gmap pystr (bytes + pystr) * world :=
  match order with
  | [] => (results, w)
  | code :: rest =>
      let '((code', r), w1) := fetch_single code strat qrs_dir allow_fallback w in
      run_pool rest strat qrs_dir allow_fallback (<[code' := r]> results) w1
  end.

(** [prefetch_qrs]; [order] is the completion order the pool happens to
    produce for [codes].  [ThreadPoolExecutor] refuses a width below 1. *)
Definition prefetch_qrs (order codes : list pystr) (strat : strategy)
    (qrs_dir : pystr) (workers : Z) (allow_fallback : bool) (w : world)
  : (pool_error + gmap pystr (bytes + pystr)) * world :=
  if workers <=? 0 then (inl PoolValueError, w)
  else
    let '(results, w') := run_pool order strat qrs_dir allow_fallback ∅ w in
    (inr results, w').

End Resolver.

Definition path_exists (w : world) (path : pystr) : bool :=
  (bool_decide (path ∈ w_dirs w) || bool_decide (is_Some (w_files w !! path)))%bool.

(** [p] names an entry directly inside [dir]. *)
Definition is_child (dir p : pystr) : bool :=
  let pre := path_join dir [] in
  let name := drop (length pre) p in
  (startswith p pre
   && match name with [] => false | _ => true end
   && negb (contains name [slash]))%bool.

(** [Path(qrs_dir).glob("*.png")]. *)
Definition glob_png (qrs_dir : pystr) (w : world) : list pystr :=
  List.filter (fun p => (is_child qrs_dir p && endswith p png)%bool)
              (map fst (map_to_list (w_files w))).

(** [file_age > max_age_seconds]. *)
Definition too_old (current_time : Q) (max_age_seconds : Z) (f : file) : bool :=
  negb (Qle_bool (current_time - f_mtime f) (inject_Z max_age_seconds)).

(** The loop of [clean_cache]; an [unlink] that raises is caught and the
    file is not counted. *)
Fixpoint purge (paths : list pystr) (current_time : Q) (max_age_seconds : Z)
    (deleted : Z) (w : world) : Z * world :=
  match paths with
  | [] => (deleted, w)
  | file_path :: rest =>
      match w_files w !! file_path with
      | Some f =>
          if too_old current_time max_age_seconds f
          then if bool_decide (file_path ∈ w_locked w)
               then purge rest current_time max_age_seconds deleted w
               else purge rest current_time max_age_seconds (deleted + 1)
                      (unlink file_path w)
          else purge rest current_time max_age_seconds deleted w
      | None => purge rest current_time max_age_seconds deleted w
      end
  end.

Definition clean_cache (qrs_dir : pystr) (max_age_days : Z) (w : world)
  : Z * world :=
  if negb (path_exists w qrs_dir) then (0, w)
  else
    let max_age_seconds := max_age_days * 24 * 60 * 60 in
    let current_time := w_clock w in
    purge (glob_png qrs_dir w) current_time max_age_seconds 0 w.

End Qrs.

(** ** Specification vocabulary *)

Module ExcelSpec.
Import Excel.

(** [u] is an upper-case letter of ASCII or Latin-1. *)
Definition is_capital (u : N) : bool :=
  (in_range 65 90 u || (in_range 192 222 u && negb (N.eqb u 215)))%bool.

(** [s] is [t] with some of its capitals replaced by their small letter. *)
Definition case_variant (s t : pystr) : Prop :=
  Forall2 (fun c u => c = u \/ (is_capital u = true /\ c = (u + 32)%N)) s t.

(** The validation rules of a row: when each is violated, and the text
    that reports it. *)
Definition rules : list ((gmap pystr pyval -> bool) * pystr) :=
  [ (fun row => is_blank row kPrimerNombre, msg_empty kPrimerNombre);
    (fun row => is_blank row kPrimerApellido, msg_empty kPrimerApellido);
    (fun row => is_blank row kQR, msg_empty kQR);
    (fun row => truthy (row_get row kLLevaConyugue)
                && is_blank row kPrimerNombreConyugue,
     msg_spouse_empty kPrimerNombreConyugue);
    (fun row => truthy (row_get row kLLevaConyugue)
                && is_blank row kPrimerApellidoConyugue,
     msg_spouse_empty kPrimerApellidoConyugue);
    (fun row => truthy (row_get row kLLevaConyugue)
                && is_blank row kQR_Conyugue,
     msg_spouse_empty kQR_Conyugue) ].

Definition violated (row : gmap pystr pyval)
    (rule : (gmap pystr pyval -> bool) * pystr) : Prop :=
  fst rule row = true.

(** [e !! k] is a non-empty string. *)
Definition filled (e : gmap pystr pyval) (k : pystr) : Prop :=
  exists s, e !! k = Some (PyStr s) /\ s <> [].

(** The invariant of an attendee record. *)
Definition record_invariant (e : gmap pystr pyval) : Prop :=
  filled e kPrimerNombre /\ filled e kPrimerApellido /\ filled e kQR
  /\ exists b, e !! kLLevaConyugue = Some (PyBool b)
       /\ (b = true ->
           filled e kPrimerNombreConyugue /\ filled e kPrimerApellidoConyugue
           /\ filled e kQR_Conyugue).


(** A sheet with one complete row, companion included. *)
Definition example_cells (k : pystr) : pyval :=
  if PyStr.eqb k kLLevaConyugue then PyStr (py "si")
  else if PyStr.eqb k kMesa then PyInt 7
  else if PyStr.eqb k kTour then PyNaN
  else PyStr (py "x").

Definition example_df : dataframe :=
  {| df_columns := REQUIRED_COLUMNS; df_rows := [example_cells] |}.

(** A row that brings a companion whose QR identifier is empty. *)
Definition example_row_no_spouse_qr : gmap pystr pyval :=
  <[kPrimerNombre := PyStr (py "Ana")]>
  (<[kPrimerApellido := PyStr (py "Ruiz")]>
  (<[kQR := PyStr (py "QR1")]>
  (<[kLLevaConyugue := PyBool true]>
  (<[kPrimerNombreConyugue := PyStr (py "Luis")]>
  (<[kPrimerApellidoConyugue := PyStr (py "Paz")]>
  (<[kQR_Conyugue := PyStr []]> ∅)))))).

End ExcelSpec.

Module QrsSpec.
Import Qrs.

(** One attempt fails, and the loop goes on: a timeout, a transport
    error or a 4xx/5xx status. *)
Definition attempt_fails (r : response) : bool :=
  match r with
  | Http status _ => is_error_status status
  | Timeout | RequestError => true
  | OtherError _ => false
  end.

(** The server is unreachable for [url]: every attempt fails. *)
Definition unreachable (server : pystr -> nat -> response) (url : pystr) : Prop :=
  forall n, attempt_fails (server url n) = true.

(** The server is reachable for [url]: every attempt is answered with a
    non-error status and a non-empty body. *)
Definition reachable (server : pystr -> nat -> response) (url : pystr) : Prop :=
  forall n, exists status b bs,
    server url n = Http status (b :: bs) /\ is_error_status status = false.


Definition is_write (e : event) : bool :=
  match e with EvWrite _ _ => true | _ => false end.

(** Effects that touch no file: requests and pauses. *)
Definition network_only (e : event) : Prop :=
  match e with EvGet _ | EvSleep _ => True | _ => False end.


(** The world in which the download starts, and what a cache write that
    succeeds leaves: both depend on the strategy. *)
Definition prepare (strat : strategy) (qrs_dir : pystr) (w : world) : world :=
  match strat with Cache => makedirs qrs_dir w | Download => w end.
Definition store (strat : strategy) (path : pystr) (data : bytes) (w : world)
  : world :=
  match strat with Cache => write_file path data w | Download => w end.

(** The download delivered nothing usable: no body, or an empty one. *)
Definition no_bytes (o : error + option bytes) : Prop :=
  o = inr None \/ o = inr (Some []).

(** What [prefetch_qrs] records for a resolution: its bytes, or the
    message of the exception it raised. *)
Definition recorded (r : result) : bytes + pystr :=
  match r with Ok b => inl b | Raise e => inr (str_of_error e) end.

(** The same world when the clock reads [t]. *)
Definition at_time (t : Q) (w : world) : world :=
  {| w_files := w_files w; w_dirs := w_dirs w; w_locked := w_locked w;
     w_write_error := w_write_error w;
     w_clock := t; w_log := w_log w |}.

(** Concrete surroundings for the examples. *)
Definition data_cached : bytes := [Byte.x01].
Definition data_server : bytes := [Byte.x02].
Definition data_local : bytes := [Byte.x03].
Definition server_down : pystr -> nat -> response := fun _ _ => Timeout.
Definition server_up : pystr -> nat -> response :=
  fun _ _ => Http 200 data_server.
Definition render_local : pystr -> pystr + bytes := fun _ => inr data_local.

(** A renderer that gives up on payloads of more than 8 characters,
    requests that all raise before anything is sent, and the text of the
    error for a missing directory. *)
Definition render_short : pystr -> pystr + bytes :=
  fun payload =>
    if (8 <? length payload)%nat then inl (py "Invalid version")
    else inr data_local.
Definition server_rejects : pystr -> nat -> response :=
  fun _ _ => OtherError (py "Failed to parse").
Definition enoent : pystr := Eval cbv in py "No such file or directory".

(** A file system whose only directory is qrs, holding [files]: a file
    can be written directly inside qrs and nowhere else. *)
Definition world_of (files : list (pystr * bytes)) : world :=
  {| w_files :=
       list_to_map
         (map (fun pd => (fst pd, {| f_data := snd pd; f_mtime := 0 |})) files);
     w_dirs := {[py "qrs"]};
     w_locked := ∅;
     w_write_error := fun p => if is_child (py "qrs") p then None else Some enoent;
     w_clock := 0;
     w_log := [] |}.

(** A cache holding a valid entry and a fallback entry for QR001. *)
Definition world_both : world :=
  world_of [ (py "qrs/QR001.png", data_cached);
             (py "qrs/QR001_local.png", data_local) ].



Definition world_empty : world := world_of [].


End QrsSpec.

(** ** cli.py: the callers of the QR functions *)

Module Cli.
Import Excel Qrs.

(** The identifiers handed to [prefetch_qrs] (process_attendees): the QR
    of every attendee that has one, then the companion's when the
    attendee brings one and it has one. *)
Definition all_codes (attendees : list (gmap pystr pyval)) : list pyval :=
  flat_map
    (fun entry =>
       (if truthy (row_get entry kQR) then [row_get entry kQR] else [])
       ++ (if (truthy (row_get entry kLLevaConyugue)
               && truthy (row_get entry kQR_Conyugue))%bool
           then [row_get entry kQR_Conyugue] else []))
    attendees.

(** The counter that is incremented after a QR was obtained. *)
Inductive tally := Descargado | DesdeCache | GeneradoLocal.

Definition qr_tally (qr qrs_dir : pystr) (w : world) : tally :=
  if (contains qr (py "downloadQr") || startswith qr (py "http"))%bool
  then Descargado
  else if path_exists w (path_join qrs_dir (qr ++ png))
       then DesdeCache
       else GeneradoLocal.

End Cli.

(** ** Further vocabulary *)

Module MoreSpec.
Import Excel ExcelSpec Qrs QrsSpec.

(** The log of [j] attempts on [url], latest first: a pause between two
    consecutive requests, none after the last. *)
Fixpoint attempts_log (url : pystr) (j : nat) : list event :=
  match j with
  | O => []
  | S O => [EvGet url]
  | S j' => EvGet url :: EvSleep RETRY_DELAY :: attempts_log url j'
  end.

(** The answer to attempt [i] (from 0) of a download started in [w]. *)
Definition answer (server : pystr -> nat -> response) (url : pystr)
    (w : world) (i : nat) : response :=
  server url (requests_made w + i)%nat.

(** [clean_cache] deletes [p]: it lies directly in the directory, is a
    .png, is older than the threshold and can be unlinked. *)
Definition doomed (qrs_dir : pystr) (max_age_days : Z) (w : world)
    (p : pystr) (f : file) : bool :=
  (is_child qrs_dir p && endswith p png
   && too_old (w_clock w) (max_age_days * 24 * 60 * 60) f
   && negb (bool_decide (p ∈ w_locked w)))%bool.

(** No occurrence of [sep] starts inside [a] when [a] is followed by
    [sep]. *)
Fixpoint no_match_in (sep a : pystr) : bool :=
  match a with
  | [] => true
  | _ :: a' => negb (startswith (a ++ sep) sep) && no_match_in sep a'
  end.

(** The host part of [QR_BASE_URL]. *)
Definition base_host : pystr :=
  Eval cbv in py "https://evento-directores.qualitaseventos.mx".

(** A server that fails the first request and answers all later ones. *)
Definition server_flaky : pystr -> nat -> response :=
  fun _ n => match n with O => Timeout | S _ => Http 200 data_server end.

(** A character of a printed integer: the sign or a digit. *)
Definition numeric_char (c : N) : Prop := c = 45%N \/ (48 <= c <= 57)%N.





(** The world after the pool has run the tasks of [order]. *)
Definition after_pool (server : pystr -> nat -> response)
    (render : pystr -> pystr + bytes) (order : list pystr) (strat : strategy)
    (d : pystr) (af : bool) (w : world) : world :=
  snd (run_pool server render order strat d af ∅ w).

End MoreSpec.

(** * Properties *)

(** ** Strings *)

Section StringFacts.

Lemma startswith_refl_app (x y q : pystr) :
  startswith (x ++ y) (x ++ q) = startswith y q.
Proof.
  induction x as [|c x IH]; simpl; [reflexivity|].
  rewrite N.eqb_refl. exact IH.
Qed.

(** A pattern never matches across a character it does not contain. *)
Lemma startswith_app_barrier (a b p : pystr) :
  match b with [] => True | c :: _ => ~ In c p end ->
  startswith (a ++ b) p = startswith a p.
Proof.
  revert p. induction a as [|x a IH]; intros p Hb; simpl.
  - destruct p as [|c0 p]; [destruct b; reflexivity|].
    destruct b as [|c b]; [reflexivity|]. simpl.
    destruct (N.eqb_spec c c0) as [->|]; [|reflexivity].
    exfalso. apply Hb. now left.
  - destruct p as [|c0 p]; [reflexivity|]. simpl.
    rewrite IH; [reflexivity|].
    destruct b; [exact I|]. intros Hin. apply Hb. now right.
Qed.

Lemma startswith_app (s p : pystr) :
  startswith s p = true <-> exists t, s = p ++ t.
Proof.
  revert s. induction p as [|c p IH]; intros s; simpl.
  - split; [eauto|reflexivity].
  - destruct s as [|d s]; [split; [discriminate|intros [t Ht]; discriminate]|].
    rewrite andb_true_iff, N.eqb_eq, IH. split.
    + intros [-> [t ->]]. eauto.
    + intros [t Ht]. injection Ht as -> ->. eauto.
Qed.

Lemma endswith_app (s p : pystr) :
  endswith s p = true <-> exists t, s = t ++ p.
Proof.
  unfold endswith. rewrite startswith_app. split.
  - intros [t Ht]. exists (rev t).
    rewrite <- (rev_involutive s), Ht, rev_app_distr, rev_involutive. reflexivity.
  - intros [t ->]. exists (rev t). apply rev_app_distr.
Qed.


End StringFacts.

(** ** excel.py: validation *)
Section ExcelFacts.
Import Excel ExcelSpec.

Ltac split_variant H :=
  repeat match type of H with
         | Forall2 _ _ (_ :: _) =>
             let c := fresh "c" in let s := fresh "s" in
             let Hc := fresh "Hc" in let Hs := fresh "Hs" in
             let E := fresh "E" in
             apply Forall2_cons_inv_r in H as (c & s & Hc & Hs & E);
             subst; rename Hs into H
         | Forall2 _ _ [] => apply Forall2_nil_inv_r in H; subst
         end.

Lemma case_variant_accepted (s t : pystr) :
  t ∈ TRUE_VALUES -> case_variant s t -> parse_boolean (PyStr s) = true.
Proof.
  unfold TRUE_VALUES, case_variant. intros Ht Hs.
  repeat (apply elem_of_cons in Ht as [-> | Ht]).
  all: try (apply elem_of_nil in Ht; contradiction).
  all: split_variant Hs.
  all: repeat match goal with
         | H : _ \/ _ |- _ =>
             destruct H as [H | [Hcap H]]; [|try discriminate Hcap; clear Hcap]
         end.
  all: subst; vm_compute; reflexivity.
Qed.

(** C7.  [parse_boolean] is true exactly for the values that are not
    missing and whose string form, stripped and upper-cased, is one of
    SI, SÍ, S, YES, Y, 1, TRUE, VERDADERO; hence every spelling of a token
    in small or mixed letters is accepted, while the missing value, the
    empty string and NO are rejected. *)
Theorem parse_boolean_exact :
  (forall v : pyval,
      parse_boolean v = true <->
      isna v = false /\ upper (strip (str v)) ∈ TRUE_VALUES)
  /\ (forall s t : pystr,
         t ∈ TRUE_VALUES -> case_variant s t -> parse_boolean (PyStr s) = true)
  /\ parse_boolean PyNone = false
  /\ parse_boolean PyNaN = false
  /\ parse_boolean (PyStr []) = false
  /\ parse_boolean (PyStr (py "NO")) = false.
Proof.
  split; [|split; [exact case_variant_accepted|now vm_compute]].
  intros v. unfold parse_boolean.
  destruct (isna v).
  - split; [discriminate|intros [? _]; discriminate].
  - rewrite bool_decide_eq_true. tauto.
Qed.

Lemma parse_boolean_exact_witness :
  parse_boolean (PyStr (py " s" ++ [237%N] ++ py " ")) = true
  /\ parse_boolean (PyStr (py "Verdadero")) = true.
Proof.
  destruct parse_boolean_exact as (Hiff & Hcase & _).
  split.
  - apply Hiff. split; [reflexivity|]. vm_compute. repeat constructor.
  - apply (Hcase _ (py "VERDADERO")).
    + vm_compute. repeat constructor.
    + vm_compute. repeat constructor; right; split; reflexivity.
Defined.

Lemma row_errors_complete (row : gmap pystr pyval) rule :
  In rule rules -> violated row rule -> In (snd rule) (row_errors row).
Proof.
  unfold rules, violated, row_errors. simpl In.
  intros Hin Hv.
  repeat (destruct Hin as [<- | Hin]); try contradiction; simpl in Hv |- *;
    try (apply andb_true_iff in Hv as [Ht Hv]; rewrite Ht);
    rewrite ?in_app_iff; rewrite Hv; simpl; tauto.
Qed.





Ltac entry_lookup :=
  unfold make_entry, row_get;
  repeat (rewrite lookup_insert_ne by discriminate);
  rewrite lookup_insert_eq; reflexivity.

Lemma entry_text (row : pystr -> pyval) (k : pystr) :
  In k [kPrimerNombre; kPrimerApellido; kQR; kPrimerNombreConyugue;
        kPrimerApellidoConyugue; kQR_Conyugue] ->
  make_entry row !! k = Some (cell_text (row k)).
Proof.
  simpl In. intros H.
  repeat (destruct H as [<- | H]); try contradiction; entry_lookup.
Qed.

Lemma entry_flag (row : pystr -> pyval) :
  make_entry row !! kLLevaConyugue
  = Some (PyBool (parse_boolean (row kLLevaConyugue))).
Proof. entry_lookup. Qed.

Lemma entry_filled (row : pystr -> pyval) (k : pystr) :
  In k [kPrimerNombre; kPrimerApellido; kQR; kPrimerNombreConyugue;
        kPrimerApellidoConyugue; kQR_Conyugue] ->
  is_blank (make_entry row) k = false -> filled (make_entry row) k.
Proof.
  intros Hk Hb. unfold is_blank, row_get in Hb. unfold filled.
  rewrite (entry_text row k Hk) in *. unfold cell_text in *.
  eexists. split; [reflexivity|].
  revert Hb. destruct (isna (row k)); [discriminate|].
  destruct (str (row k)); [discriminate|intros _; discriminate].
Qed.

Lemma read_rows_accepted rows e :
  e ∈ fst (read_rows rows) ->
  exists idx row, e = make_entry row /\ validate_row (make_entry row) idx = None.
Proof.
  induction rows as [|[idx row] rows IH]; simpl.
  - intros H. apply elem_of_nil in H. contradiction.
  - destruct (read_rows rows) as [attendees invalid_rows]. simpl in IH.
    destruct (validate_row (make_entry row) idx) eqn:E; simpl.
    + exact IH.
    + intros [-> | H]%elem_of_cons; eauto.
Qed.

Lemma validate_row_none (row : gmap pystr pyval) idx :
  validate_row row idx = None -> row_errors row = [].
Proof.
  unfold validate_row. destruct (row_errors row); [reflexivity|discriminate].
Qed.

Lemma accepted_entry_invariant (row : pystr -> pyval) :
  row_errors (make_entry row) = [] -> record_invariant (make_entry row).
Proof.
  unfold row_errors. intros H.
  repeat match type of H with
         | _ ++ _ = [] => apply app_eq_nil in H as [? H]
         end.
  repeat match goal with
         | H : (if is_blank ?r ?k then _ else _) = [] |- _ =>
             destruct (is_blank r k) eqn:?; [discriminate H|clear H]
         end.
  unfold record_invariant.
  do 3 (split; [apply entry_filled; [simpl; tauto|assumption]|]).
  exists (parse_boolean (row kLLevaConyugue)).
  split; [apply entry_flag|]. intros Hb.
  unfold row_get in H. rewrite entry_flag in H. simpl in H. rewrite Hb in H.
  repeat match type of H with
         | _ ++ _ = [] => apply app_eq_nil in H as [? H]
         end.
  repeat match goal with
         | H : (if is_blank ?r ?k then _ else _) = [] |- _ =>
             destruct (is_blank r k) eqn:?; [discriminate H|clear H]
         end.
  repeat split; apply entry_filled; simpl; tauto.
Qed.

Lemma read_attendees_rows (df : dataframe) attendees :
  read_attendees df = inr attendees ->
  attendees = fst (read_rows (iterrows df)).
Proof.
  unfold read_attendees.
  destruct (missing_columns (df_columns df)); [|discriminate].
  destruct (doubled_columns (df_columns df)), (df_rows df);
    try discriminate; now intros [= <-].
Qed.

(** C6.  Every record returned by [read_attendees] has a non-empty first
    name, last name and QR identifier, and when its has-companion flag is
    true its three companion fields are non-empty; and [validate_row]
    rejects any row whose has-companion value is true while its companion
    QR identifier is empty, whatever the other fields hold. *)
Theorem read_attendees_invariant :
  (forall (df : dataframe) attendees e,
      read_attendees df = inr attendees -> e ∈ attendees -> record_invariant e)
  /\ (forall (row : gmap pystr pyval) (row_index : Z),
         truthy (row_get row kLLevaConyugue) = true ->
         is_blank row kQR_Conyugue = true ->
         exists msg, validate_row row row_index = Some msg).
Proof.
  split.
  - intros df attendees e Hread He.
    apply read_attendees_rows in Hread. subst attendees.
    apply read_rows_accepted in He as (idx & row & -> & Hv).
    apply accepted_entry_invariant. eapply validate_row_none, Hv.
  - intros row idx Ht Hb.
    destruct (validate_row row idx) eqn:E; [eauto|].
    apply validate_row_none in E.
    pose proof (row_errors_complete row
      (fun row => truthy (row_get row kLLevaConyugue) && is_blank row kQR_Conyugue,
       msg_spouse_empty kQR_Conyugue)) as H.
    rewrite E in H. destruct H.
    + unfold rules. simpl. tauto.
    + unfold violated. simpl. now rewrite Ht, Hb.
Qed.

Lemma read_attendees_invariant_witness :
  record_invariant (make_entry example_cells)
  /\ exists msg, validate_row example_row_no_spouse_qr 5 = Some msg.
Proof.
  destruct read_attendees_invariant as [Hinv Hrej]. split.
  - apply (Hinv example_df [make_entry example_cells]).
    + vm_compute. reflexivity.
    + constructor.
  - apply Hrej; vm_compute; reflexivity.
Defined.

End ExcelFacts.

(** ** qrs.py: cache file names *)

Section PathFacts.
Import Qrs.

Lemma local_png_split : local_png = local_suffix ++ png.
Proof. reflexivity. Qed.


(** [os.path.join(d, b)] is [b] after a prefix that is empty or ends
    with a slash. *)
Lemma path_join_shape (d b : pystr) :
  exists pre, path_join d b = pre ++ b
              /\ (pre = [] \/ exists pre', pre = pre' ++ [slash]).
Proof.
  unfold path_join.
  destruct (startswith b [slash]); [exists []; auto|].
  destruct d as [|c d]; [exists []; auto|].
  cbn [orb]. destruct (endswith (c :: d) [slash]) eqn:E.
  - exists (c :: d). split; [reflexivity|]. right.
    apply endswith_app in E as [t ->]. eauto.
  - exists ((c :: d) ++ [slash]). split; [now rewrite <- app_assoc|]. eauto.
Qed.



(** The test [cache_path.endswith("_local.png")] is a test on the key. *)
Lemma valid_path_local (d k : pystr) :
  endswith (valid_path d k) local_png = endswith k local_suffix.
Proof.
  unfold valid_path.
  destruct (path_join_shape d (k ++ png)) as (pre & -> & Hpre).
  unfold endswith. rewrite local_png_split, !rev_app_distr, <- app_assoc.
  rewrite startswith_refl_app.
  apply startswith_app_barrier.
  destruct Hpre as [-> | [pre' ->]]; [exact I|].
  rewrite rev_app_distr. simpl. vm_compute. intuition discriminate.
Qed.


End PathFacts.

(** ** qrs.py: resolution *)

Section ResolverFacts.
Import Qrs QrsSpec MoreSpec.

Variable server : pystr -> nat -> response.
Variable generate_qr_local : pystr -> pystr + bytes.



(** The retry loop leaves the file system alone; it only adds requests
    and pauses to the log, at least one request when it runs at all. *)
Lemma download_loop_frame (url : pystr) (n : nat) (w : world) :
  let w' := snd (download_loop server url n w) in
  w_files w' = w_files w /\ w_dirs w' = w_dirs w
  /\ w_locked w' = w_locked w /\ w_clock w' = w_clock w
  /\ exists evs, w_log w' = evs ++ w_log w /\ Forall network_only evs
                 /\ (n <> O -> List.filter is_get evs <> []).
Proof.
  revert w. induction n as [|k IH]; intros w; simpl.
  - repeat split; try reflexivity. exists []. repeat split; auto.
  - set (w1 := log (EvGet url) w).
    set (w2 := match k with O => w1 | S _ => log (EvSleep RETRY_DELAY) w1 end).
    assert (Hw2 : w_files w2 = w_files w /\ w_dirs w2 = w_dirs w
                  /\ w_locked w2 = w_locked w /\ w_clock w2 = w_clock w
                  /\ exists evs, w_log w2 = evs ++ w_log w
                       /\ Forall network_only evs
                       /\ List.filter is_get evs <> []).
    { subst w2. destruct k; simpl; repeat split; try reflexivity.
      - exists [EvGet url]. repeat split; [repeat constructor|discriminate].
      - exists [EvSleep RETRY_DELAY; EvGet url].
        repeat split; [repeat constructor|discriminate]. }
    assert (Hretry :
      let w' := snd (download_loop server url k w2) in
      w_files w' = w_files w /\ w_dirs w' = w_dirs w
      /\ w_locked w' = w_locked w /\ w_clock w' = w_clock w
      /\ exists evs, w_log w' = evs ++ w_log w /\ Forall network_only evs
                     /\ (S k <> O -> List.filter is_get evs <> [])).
    { destruct (IH w2) as (F & D & L & C & evs & E & N & _).
      destruct Hw2 as (F2 & D2 & L2 & C2 & evs2 & E2 & N2 & G2).
      simpl. rewrite F, D, L, C. repeat split; try assumption.
      exists (evs ++ evs2). rewrite E, E2, app_assoc.
      repeat split; [now apply Forall_app|].
      intros _. rewrite List.filter_app. intros H.
      apply app_eq_nil in H as [_ H]. contradiction. }
    assert (Hstop :
      w_files w1 = w_files w /\ w_dirs w1 = w_dirs w
      /\ w_locked w1 = w_locked w /\ w_clock w1 = w_clock w
      /\ exists evs, w_log w1 = evs ++ w_log w /\ Forall network_only evs
                     /\ (S k <> O -> List.filter is_get evs <> [])).
    { repeat split; try reflexivity.
      exists [EvGet url]. repeat split; [repeat constructor|discriminate]. }
    destruct (server url (requests_made w)) as [| |status content|text];
      [exact Hretry|exact Hretry| |exact Hstop].
    destruct (is_error_status status); [exact Hretry|exact Hstop].
Qed.

Lemma download_loop_write_error (url : pystr) (n : nat) (w : world) :
  w_write_error (snd (download_loop server url n w)) = w_write_error w.
Proof.
  revert w. induction n as [|k IH]; intros w; simpl; [reflexivity|].
  assert (Hretry :
    w_write_error
      (snd (download_loop server url k
              (match k with
               | O => log (EvGet url) w
               | S _ => log (EvSleep RETRY_DELAY) (log (EvGet url) w)
               end))) = w_write_error w)
    by (rewrite IH; destruct k; reflexivity).
  destruct (server url (requests_made w)) as [| |status content|text];
    [exact Hretry|exact Hretry| |reflexivity].
  destruct (is_error_status status); [exact Hretry|reflexivity].
Qed.

Lemma download_loop_unreachable (url : pystr) (n : nat) (w : world) :
  unreachable server url -> fst (download_loop server url n w) = inr None.
Proof.
  intros Hu. revert w. induction n as [|k IH]; intros w; simpl; [reflexivity|].
  specialize (Hu (requests_made w)).
  destruct (server url (requests_made w)) as [| |status content|text];
    [apply IH|apply IH| |discriminate Hu].
  simpl in Hu. rewrite Hu. apply IH.
Qed.

Lemma download_loop_reachable (url : pystr) (n : nat) (w : world) :
  reachable server url -> n <> O ->
  exists b bs, fst (download_loop server url n w) = inr (Some (b :: bs)).
Proof.
  intros Hr Hn. destruct n as [|k]; [contradiction|]. simpl.
  destruct (Hr (requests_made w)) as (status & b & bs & -> & ->).
  simpl. eauto.
Qed.

(** What the loop returns is the body of some non-error answer. *)
Lemma download_loop_served (url : pystr) (n : nat) (w : world) data :
  fst (download_loop server url n w) = inr (Some data) ->
  exists i status, server url i = Http status data
                   /\ is_error_status status = false.
Proof.
  revert w. induction n as [|k IH]; intros w; simpl; [discriminate|].
  destruct (server url (requests_made w)) as [| |status content|text] eqn:E;
    [apply IH|apply IH| |discriminate].
  destruct (is_error_status status) eqn:Es; [apply IH|].
  simpl. intros [= <-]. eauto.
Qed.



Lemma cache_write_ok (strat : strategy) (p : pystr) (data : bytes)
    (w w' : world) :
  cache_write strat p data w = inr w' ->
  w' = store strat p data w /\ (strat = Cache -> w_write_error w p = None).
Proof.
  unfold cache_write, store. destruct strat.
  - intros [= <-]. split; [reflexivity|discriminate].
  - destruct (w_write_error w p); [discriminate|]. intros [= <-]. auto.
Qed.

Lemma cache_write_error (strat : strategy) (p : pystr) (data : bytes)
    (w : world) (e : error) :
  cache_write strat p data w = inl e ->
  strat = Cache
  /\ exists text, w_write_error w p = Some text /\ e = OSError p text.
Proof.
  unfold cache_write. destruct strat; [discriminate|].
  destruct (w_write_error w p) as [text|]; [|discriminate].
  intros [= <-]. eauto.
Qed.

(** The seven courses of a call from the download on. *)
Lemma download_or_fallback_cases (q k url : pystr) (strat : strategy)
    (d : pystr) (af : bool) (w1 : world) :
  let dl := download_qr_from_url server url MAX_RETRIES w1 in
  let r := download_or_fallback server generate_qr_local q k url strat d af w1 in
  (exists e, fst dl = inl e /\ r = (Raise e, snd dl))
  \/ (exists b bs w2, fst dl = inr (Some (b :: bs))
        /\ cache_write strat (valid_path d k) (b :: bs) (snd dl) = inr w2
        /\ r = (Ok (b :: bs), w2))
  \/ (exists b bs e, fst dl = inr (Some (b :: bs))
        /\ cache_write strat (valid_path d k) (b :: bs) (snd dl) = inl e
        /\ r = (Raise e, snd dl))
  \/ (no_bytes (fst dl) /\ af = false
      /\ r = (Raise (CriticalError (error_msg k)), snd dl))
  \/ (exists text, no_bytes (fst dl) /\ af = true
        /\ generate_qr_local q = inl text
        /\ r = (Raise (RenderError text), snd dl))
  \/ (exists img w2, no_bytes (fst dl) /\ af = true
        /\ generate_qr_local q = inr img
        /\ cache_write strat (fallback_path d k) img (snd dl) = inr w2
        /\ r = (Ok img, w2))
  \/ (exists img e, no_bytes (fst dl) /\ af = true
        /\ generate_qr_local q = inr img
        /\ cache_write strat (fallback_path d k) img (snd dl) = inl e
        /\ r = (Raise e, snd dl)).
Proof.
  unfold download_or_fallback, no_bytes. simpl.
  destruct (download_qr_from_url server url MAX_RETRIES w1)
    as [[e|[[|b bs]|]] w2]; simpl.
  - left. eauto.
  - do 3 right. destruct af; simpl; [right|left; auto].
    destruct (generate_qr_local q) as [text|img]; [left; eauto 6|right].
    destruct (cache_write strat (fallback_path d k) img w2) as [e|w3] eqn:Ew;
      [right; exists img, e|left; exists img, w3]; auto 7.
  - right.
    destruct (cache_write strat (valid_path d k) (b :: bs) w2) as [e|w3] eqn:Ew;
      [right; left; exists b, bs, e|left; exists b, bs, w3]; auto.
  - do 3 right. destruct af; simpl; [right|left; auto].
    destruct (generate_qr_local q) as [text|img]; [left; eauto 6|right].
    destruct (cache_write strat (fallback_path d k) img w2) as [e|w3] eqn:Ew;
      [right; exists img, e|left; exists img, w3]; auto 7.
Qed.

Lemma get_qr_image_cases (q : pystr) (strat : strategy) (d : pystr)
    (af : bool) (w : world) :
  let k := codigo_of q in
  let r := get_qr_image server generate_qr_local q strat d af w in
  (exists f, w_files w !! q = Some f /\ r = (Ok (f_data f), log (EvRead q) w))
  \/ (w_files w !! q = None /\ strat = Cache
      /\ exists f, w_files w !! valid_path d k = Some f
           /\ endswith k local_suffix = false
           /\ r = (Ok (f_data f), log (EvRead (valid_path d k)) (makedirs d w)))
  \/ (w_files w !! q = None
      /\ (strat = Download \/ w_files w !! valid_path d k = None
          \/ endswith k local_suffix = true)
      /\ r = download_or_fallback server generate_qr_local q k (url_of q)
               strat d af (prepare strat d w)).
Proof.
  unfold get_qr_image, codigo_of, url_of. simpl.
  destruct (w_files w !! q) as [f|] eqn:Eq; [left; eauto|]. right.
  destruct (codigo_url q) as [k url]. simpl.
  destruct strat; [right; auto|].
  change (w_files (makedirs d w)) with (w_files w).
  destruct (w_files w !! valid_path d k) as [f|] eqn:Ev; [|right; auto].
  rewrite valid_path_local.
  destruct (endswith k local_suffix) eqn:El; simpl; [right; auto|].
  left. repeat split; eauto.
Qed.

(** A call that is not answered from a file runs the download. *)
Lemma get_qr_image_downloads (q : pystr) (strat : strategy) (d : pystr)
    (af : bool) (w : world) :
  w_files w !! q = None ->
  strat = Download \/ w_files w !! valid_path d (codigo_of q) = None
    \/ endswith (codigo_of q) local_suffix = true ->
  get_qr_image server generate_qr_local q strat d af w
  = download_or_fallback server generate_qr_local q (codigo_of q) (url_of q)
      strat d af (prepare strat d w).
Proof.
  intros Hq Hs.
  destruct (get_qr_image_cases q strat d af w)
    as [(f & E & _) | [(_ & -> & f & Ef & El & _) | (_ & _ & E)]].
  - congruence.
  - destruct Hs as [|[|]]; congruence.
  - exact E.
Qed.

(** From the download on, the world is the one the download left, with
    at most one cache write on top. *)
Lemma download_or_fallback_world (q k url : pystr) (strat : strategy)
    (d : pystr) (af : bool) (w1 : world) :
  let w2 := snd (download_qr_from_url server url MAX_RETRIES w1) in
  let w' := snd (download_or_fallback server generate_qr_local q k url strat
                   d af w1) in
  w' = w2
  \/ (exists data, w' = store strat (valid_path d k) data w2)
  \/ (exists data, w' = store strat (fallback_path d k) data w2).
Proof.
  cbv zeta.
  destruct (download_or_fallback_cases q k url strat d af w1)
    as [(e & _ & ->) | [(b & bs & w2 & _ & Ew & ->) | [(b & bs & e & _ & _ & ->)
       | [(_ & _ & ->) | [(text & _ & _ & _ & ->)
       | [(img & w2 & _ & _ & _ & Ew & ->) | (img & e & _ & _ & _ & _ & ->)]]]]]];
    simpl; auto.
  - apply cache_write_ok in Ew as [-> _]. eauto.
  - apply cache_write_ok in Ew as [-> _]. eauto.
Qed.


(** The fallback gate: no file, no usable cache entry, no answer and no
    permission to generate. *)
Lemma fallback_gate (q : pystr) (strat : strategy) (d : pystr) (w : world) :
  w_files w !! q = None ->
  unreachable server (url_of q) ->
  strat = Download \/ w_files w !! valid_path d (codigo_of q) = None
    \/ endswith (codigo_of q) local_suffix = true ->
  let r := get_qr_image server generate_qr_local q strat d false w in
  fst r = Raise (CriticalError (error_msg (codigo_of q)))
  /\ w_files (snd r) = w_files w.
Proof.
  intros Hq Hu Hs. cbv zeta.
  rewrite (get_qr_image_downloads q strat d false w Hq Hs).
  unfold download_or_fallback, download_qr_from_url.
  pose proof (download_loop_unreachable (url_of q) (Z.to_nat MAX_RETRIES)
                (prepare strat d w) Hu) as Edl.
  destruct (download_loop_frame (url_of q) (Z.to_nat MAX_RETRIES)
              (prepare strat d w)) as (F & _).
  destruct (download_loop server (url_of q) (Z.to_nat MAX_RETRIES)
              (prepare strat d w)) as [o w2].
  simpl in Edl, F. subst o. simpl. split; [reflexivity|].
  rewrite F. now destruct strat.
Qed.








End ResolverFacts.

(** ** qrs.py: prefetch and purge *)

Section PrefetchFacts.
Import Qrs QrsSpec MoreSpec.

Variable server : pystr -> nat -> response.
Variable generate_qr_local : pystr -> pystr + bytes.

Lemma fetch_single_world (code : pystr) (strat : strategy) (d : pystr)
    (af : bool) (w : world) :
  fetch_single server generate_qr_local code strat d af w
  = ((code, recorded (fst (get_qr_image server generate_qr_local code strat d
                             af w))),
     snd (get_qr_image server generate_qr_local code strat d af w)).
Proof.
  unfold fetch_single.
  destruct (get_qr_image server generate_qr_local code strat d af w)
    as [[b|e] w']; reflexivity.
Qed.

Lemma run_pool_cons (code : pystr) (rest : list pystr) (strat : strategy)
    (d : pystr) (af : bool) (res : gmap pystr (bytes + pystr)) (w : world) :
  run_pool server generate_qr_local (code :: rest) strat d af res w
  = run_pool server generate_qr_local rest strat d af
      (<[code := recorded (fst (get_qr_image server generate_qr_local code
                                  strat d af w))]> res)
      (snd (get_qr_image server generate_qr_local code strat d af w)).
Proof. simpl. now rewrite fetch_single_world. Qed.

(** The world the pool leaves does not depend on the results collected. *)
Lemma run_pool_world (order : list pystr) (strat : strategy) (d : pystr)
    (af : bool) (res : gmap pystr (bytes + pystr)) (w : world) :
  snd (run_pool server generate_qr_local order strat d af res w)
  = after_pool server generate_qr_local order strat d af w.
Proof.
  unfold after_pool. revert res w.
  induction order as [|code rest IH]; intros res w; [reflexivity|].
  rewrite !run_pool_cons. rewrite (IH (<[code := _]> res)).
  now rewrite (IH (<[code := _]> ∅)).
Qed.

Lemma after_pool_cons (code : pystr) (rest : list pystr) (strat : strategy)
    (d : pystr) (af : bool) (w : world) :
  after_pool server generate_qr_local (code :: rest) strat d af w
  = after_pool server generate_qr_local rest strat d af
      (snd (get_qr_image server generate_qr_local code strat d af w)).
Proof. unfold after_pool at 1. rewrite run_pool_cons. apply run_pool_world. Qed.

Lemma run_pool_app (l1 l2 : list pystr) (strat : strategy) (d : pystr)
    (af : bool) (res : gmap pystr (bytes + pystr)) (w : world) :
  run_pool server generate_qr_local (l1 ++ l2) strat d af res w
  = run_pool server generate_qr_local l2 strat d af
      (fst (run_pool server generate_qr_local l1 strat d af res w))
      (snd (run_pool server generate_qr_local l1 strat d af res w)).
Proof.
  revert res w. induction l1 as [|c l1 IH]; intros res w; [reflexivity|].
  simpl app. rewrite !run_pool_cons. apply IH.
Qed.

Lemma run_pool_dom (order : list pystr) (strat : strategy) (d : pystr)
    (af : bool) (res : gmap pystr (bytes + pystr)) (w : world) :
  dom (fst (run_pool server generate_qr_local order strat d af res w))
  = dom res ∪ list_to_set order.
Proof.
  revert res w. induction order as [|code rest IH]; intros res w.
  - simpl. now rewrite union_empty_r_L.
  - rewrite run_pool_cons, IH, dom_insert_L. simpl.
    rewrite (union_comm_L {[code]} (dom res)). now rewrite <- union_assoc_L.
Qed.

Lemma run_pool_untouched (order : list pystr) (strat : strategy) (d : pystr)
    (af : bool) (res : gmap pystr (bytes + pystr)) (w : world) (code : pystr) :
  code ∉ order ->
  fst (run_pool server generate_qr_local order strat d af res w) !! code
  = res !! code.
Proof.
  revert res w. induction order as [|c rest IH]; intros res w Hn;
    [reflexivity|].
  apply not_elem_of_cons in Hn as [Hne Hn].
  rewrite run_pool_cons, IH by assumption.
  apply lookup_insert_ne. congruence.
Qed.

(** The value the pool keeps for the last task of a code. *)
Lemma run_pool_last (l1 l2 : list pystr) (code : pystr) (strat : strategy)
    (d : pystr) (af : bool) (w : world) :
  code ∉ l2 ->
  fst (run_pool server generate_qr_local (l1 ++ code :: l2) strat d af ∅ w)
    !! code
  = Some (recorded
            (fst (get_qr_image server generate_qr_local code strat d af
                    (after_pool server generate_qr_local l1 strat d af w)))).
Proof.
  intros Hn.
  rewrite run_pool_app, run_pool_cons, run_pool_untouched by assumption.
  rewrite lookup_insert_eq, run_pool_world. reflexivity.
Qed.

(** A batch of identifiers none of which can be obtained leaves every
    file as it was. *)
Lemma after_pool_all_fail (l : list pystr) (strat : strategy) (d : pystr)
    (w : world) :
  (forall code, code ∈ l ->
      w_files w !! code = None
      /\ unreachable server (url_of code)
      /\ (strat = Download
          \/ w_files w !! valid_path d (codigo_of code) = None
          \/ endswith (codigo_of code) local_suffix = true)) ->
  w_files (after_pool server generate_qr_local l strat d false w) = w_files w.
Proof.
  revert w. induction l as [|c rest IH]; intros w H; [reflexivity|].
  rewrite after_pool_cons.
  destruct (H c (list_elem_of_here _ _)) as (Hq & Hu & Hs).
  destruct (fallback_gate server generate_qr_local c strat d w Hq Hu Hs)
    as [_ F].
  rewrite IH; [exact F|].
  intros code Hc. rewrite F. apply H. now apply list_elem_of_further.
Qed.

(** C5 (amended).  For [codes] without repetition, whatever order the
    pool completes them in and for a pool width of at least 1,
    [prefetch_qrs] returns a mapping with exactly one key per code.  The
    value of a code is the outcome of its own resolution, run in the
    world that the tasks completed before it left: its bytes when it
    returned, the text of its exception when it raised, and the tasks
    after it run all the same.  When no code can be obtained (no file,
    no cache entry, no answer, no fallback) every code is mapped to the
    text of its critical error. *)
Theorem prefetch_qrs_complete (order codes : list pystr) (strat : strategy)
    (d : pystr) (workers : Z) (af : bool) (w : world) :
  NoDup codes -> order ≡ₚ codes -> 0 < workers ->
  exists results,
    fst (prefetch_qrs server generate_qr_local order codes strat d workers af w)
    = inr results
    /\ size results = length codes
    /\ dom results = list_to_set codes
    /\ (forall l1 code l2,
          order = l1 ++ code :: l2 ->
          let r := fst (get_qr_image server generate_qr_local code strat d af
                          (after_pool server generate_qr_local l1 strat d af w)) in
          (forall data, r = Ok data -> results !! code = Some (inl data))
          /\ (forall e, r = Raise e ->
                results !! code = Some (inr (str_of_error e))))
    /\ (af = false ->
        (forall code, code ∈ codes ->
            w_files w !! code = None
            /\ unreachable server (url_of code)
            /\ (strat = Download
                \/ w_files w !! valid_path d (codigo_of code) = None
                \/ endswith (codigo_of code) local_suffix = true)) ->
        forall code, code ∈ codes ->
          results !! code = Some (inr (error_msg (codigo_of code)))).
Proof.
  intros Hnd Hperm Hw. unfold prefetch_qrs.
  destruct (Z.leb_spec workers 0) as [|_]; [lia|].
  assert (Hnd' : NoDup order) by now rewrite Hperm.
  pose proof (run_pool_dom order strat d af ∅ w) as Hdom.
  destruct (run_pool server generate_qr_local order strat d af ∅ w)
    as [results w'] eqn:E.
  simpl in *. exists results. split; [reflexivity|].
  assert (Hdom' : dom results = list_to_set codes).
  { rewrite Hdom, dom_empty_L, (list_to_set_perm_L _ _ Hperm).
    apply union_empty_l_L. }
  assert (Hval : forall l1 code l2,
            order = l1 ++ code :: l2 ->
            results !! code
            = Some (recorded
                      (fst (get_qr_image server generate_qr_local code strat d af
                              (after_pool server generate_qr_local l1 strat d
                                 af w))))).
  { intros l1 code l2 Ho.
    replace results
      with (fst (run_pool server generate_qr_local order strat d af ∅ w))
      by now rewrite E.
    rewrite Ho. apply run_pool_last.
    rewrite Ho in Hnd'. apply NoDup_app in Hnd' as (_ & _ & Hnd').
    now apply NoDup_cons in Hnd' as [Hn _]. }
  split; [|split; [exact Hdom'|split]].
  - rewrite <- size_dom, Hdom'. now apply size_list_to_set.
  - intros l1 code l2 Ho. cbv zeta. rewrite (Hval l1 code l2 Ho).
    split; [intros data ->|intros e ->]; reflexivity.
  - intros -> Hall code Hc.
    assert (Hco : code ∈ order) by now rewrite Hperm.
    apply list_elem_of_split in Hco as (l1 & l2 & Ho).
    rewrite (Hval l1 code l2 Ho).
    assert (Hpre : forall c, c ∈ l1 -> c ∈ codes).
    { intros c Hin. rewrite <- Hperm, Ho. apply elem_of_app. now left. }
    pose proof (after_pool_all_fail l1 strat d w
                  (fun c Hin => Hall c (Hpre c Hin))) as F.
    destruct (Hall code Hc) as (Hq & Hu & Hs).
    destruct (fallback_gate server generate_qr_local code strat d
                (after_pool server generate_qr_local l1 strat d false w))
      as [Er _]; [now rewrite F|exact Hu|now rewrite F|].
    rewrite Er. reflexivity.
Qed.

End PrefetchFacts.

Section CleanCacheFacts.
Import Qrs QrsSpec.

Lemma purge_frame (paths : list pystr) (now : Q) (age deleted : Z) (w : world) :
  let w' := snd (purge paths now age deleted w) in
  w_dirs w' = w_dirs w /\ w_locked w' = w_locked w /\ w_clock w' = w_clock w
  /\ forall p f, w_files w' !! p = Some f -> w_files w !! p = Some f.
Proof.
  revert deleted w. induction paths as [|q rest IH]; intros deleted w; simpl.
  - auto.
  - destruct (w_files w !! q) as [f|] eqn:Eq; [|apply IH].
    destruct (too_old now age f); [|apply IH].
    destruct (bool_decide (q ∈ w_locked w)); [apply IH|].
    destruct (IH (deleted + 1) (unlink q w)) as (D & L & C & F).
    repeat split; try assumption.
    intros p f' H. apply F in H. simpl in H.
    apply lookup_delete_Some in H. tauto.
Qed.

(** A listed file that is too old and can be unlinked is gone afterwards. *)
Lemma purge_removes (paths : list pystr) (now : Q) (age deleted : Z)
    (w : world) (p : pystr) (f : file) :
  In p paths -> w_files w !! p = Some f -> too_old now age f = true ->
  p ∉ w_locked w ->
  w_files (snd (purge paths now age deleted w)) !! p = None.
Proof.
  revert deleted w. induction paths as [|q rest IH]; intros deleted w Hin Hf Ho Hl;
    [destruct Hin|]. simpl.
  destruct (decide (q = p)) as [->|Hne].
  - rewrite Hf, Ho. rewrite bool_decide_eq_false_2 by assumption.
    destruct (w_files (snd (purge rest now age (deleted + 1) (unlink p w))) !! p)
      as [f'|] eqn:E; [|reflexivity].
    apply purge_frame in E. simpl in E. now rewrite lookup_delete_eq in E.
  - destruct Hin as [|Hin]; [contradiction|].
    destruct (w_files w !! q) as [g|] eqn:Eq; [|now apply IH].
    destruct (too_old now age g); [|now apply IH].
    destruct (bool_decide (q ∈ w_locked w)); [now apply IH|].
    apply IH; try assumption. simpl. now rewrite lookup_delete_ne.
Qed.

(** When every listed file is young or cannot be unlinked, nothing is
    deleted and nothing changes. *)
Lemma purge_nothing (paths : list pystr) (now : Q) (age deleted : Z) (w : world) :
  (forall p f, In p paths -> w_files w !! p = Some f ->
               too_old now age f = true -> p ∈ w_locked w) ->
  purge paths now age deleted w = (deleted, w).
Proof.
  induction paths as [|q rest IH]; intros H; simpl; [reflexivity|].
  assert (Hrest : purge rest now age deleted w = (deleted, w)).
  { apply IH. intros p f Hin. apply H. now right. }
  destruct (w_files w !! q) as [f|] eqn:Eq; [|exact Hrest].
  destruct (too_old now age f) eqn:Eo; [|exact Hrest].
  rewrite bool_decide_eq_true_2; [exact Hrest|].
  eapply H; eauto. now left.
Qed.

Lemma glob_png_spec (d : pystr) (w : world) (p : pystr) :
  In p (glob_png d w) <->
  (is_child d p && endswith p png)%bool = true /\ is_Some (w_files w !! p).
Proof.
  unfold glob_png. rewrite filter_In, in_map_iff. split.
  - intros [([p' f] & <- & Hin) Hc]. split; [exact Hc|].
    apply list_elem_of_In, elem_of_map_to_list in Hin. simpl. eauto.
  - intros [Hc [f Hf]]. split; [|exact Hc].
    exists (p, f). split; [reflexivity|].
    now apply list_elem_of_In, elem_of_map_to_list.
Qed.

Lemma at_time_same (w : world) : at_time (w_clock w) w = w.
Proof. now destruct w. Qed.

Lemma clean_cache_keeps_clock (d : pystr) (max_age_days : Z) (w : world) :
  w_clock (snd (clean_cache d max_age_days w)) = w_clock w.
Proof.
  unfold clean_cache. destruct (negb (path_exists w d)); [reflexivity|].
  apply purge_frame.
Qed.

(** A second run whose clock reads [t] deletes nothing, as long as no
    file left by the first run has come of age in between. *)
Lemma clean_cache_again_at (d : pystr) (max_age_days : Z) (w : world) (t : Q) :
  let age := max_age_days * 24 * 60 * 60 in
  let w1 := snd (clean_cache d max_age_days w) in
  (forall p f, w_files w1 !! p = Some f ->
               too_old t age f = true -> too_old (w_clock w) age f = true) ->
  clean_cache d max_age_days (at_time t w1) = (0, at_time t w1).
Proof.
  cbv zeta. set (age := max_age_days * 24 * 60 * 60).
  destruct (negb (path_exists w d)) eqn:Ex.
  { assert (E : clean_cache d max_age_days w = (0, w))
      by (unfold clean_cache; now rewrite Ex).
    rewrite E. simpl. intros _. unfold clean_cache.
    change (path_exists (at_time t w) d) with (path_exists w d).
    now rewrite Ex. }
  assert (E : clean_cache d max_age_days w
              = purge (glob_png d w) (w_clock w) age 0 w)
    by (unfold clean_cache; now rewrite Ex).
  rewrite E. clear E.
  set (w1 := snd (purge (glob_png d w) (w_clock w) age 0 w)).
  intros Hage. unfold clean_cache.
  destruct (negb (path_exists (at_time t w1) d)); [reflexivity|].
  destruct (purge_frame (glob_png d w) (w_clock w) age 0 w) as (_ & L & _ & F).
  fold w1 in L, F. fold age.
  change (glob_png d (at_time t w1)) with (glob_png d w1).
  change (w_clock (at_time t w1)) with t.
  apply purge_nothing. intros p f Hin Hf Ho.
  change (w_files w1 !! p = Some f) in Hf.
  change (p ∈ w_locked w1).
  destruct (decide (p ∈ w_locked w1)) as [|Hnl]; [assumption|exfalso].
  apply glob_png_spec in Hin as [Hc _].
  assert (Hin : In p (glob_png d w)).
  { apply glob_png_spec. split; [exact Hc|]. exists f. now apply F. }
  rewrite L in Hnl.
  pose proof (purge_removes (glob_png d w) (w_clock w) age 0 w p f Hin
                (F p f Hf) (Hage p f Hf Ho) Hnl) as Hgone.
  fold w1 in Hgone. congruence.
Qed.

(** C9.  Running [clean_cache] again on the state the first run left,
    with the same threshold and the same clock reading, deletes no file,
    returns 0 and leaves the state as it is. *)
Theorem clean_cache_idempotent (d : pystr) (max_age_days : Z) (w : world) :
  let w1 := snd (clean_cache d max_age_days w) in
  clean_cache d max_age_days w1 = (0, w1).
Proof.
  cbv zeta.
  pose proof (clean_cache_again_at d max_age_days w
                (w_clock (snd (clean_cache d max_age_days w)))) as H.
  cbv zeta in H. rewrite at_time_same in H. apply H.
  intros p f _. now rewrite clean_cache_keeps_clock.
Qed.

End CleanCacheFacts.

(** ** Scenarios *)

Section Scenarios.
Import Qrs QrsSpec.









(** C5, as stated, fails: a pool of width 0 is refused, and the batch
    raises instead of returning a mapping. *)
Lemma prefetch_qrs_width_zero :
  NoDup [py "A"; py "B"]
  /\ prefetch_qrs server_up render_local [py "A"; py "B"] [py "A"; py "B"]
       Cache (py "qrs") 0 false world_empty
     = (inl PoolValueError, world_empty).
Proof.
  split; [|reflexivity].
  apply NoDup_cons. split; [|apply NoDup_singleton].
  intros H. apply elem_of_cons in H as [H | H]; [discriminate H|].
  apply elem_of_nil in H. exact H.
Qed.

Lemma prefetch_qrs_complete_witness :
  exists results,
    fst (prefetch_qrs server_down render_local [py "B"; py "A"]
           [py "A"; py "B"] Download (py "qrs") 8 false world_empty)
    = inr results
    /\ size results = 2%nat
    /\ results !! py "A" = Some (inr (error_msg (py "A")))
    /\ results !! py "B" = Some (inr (error_msg (py "B"))).
Proof.
  destruct (prefetch_qrs_complete server_down render_local [py "B"; py "A"]
              [py "A"; py "B"] Download (py "qrs") 8 false world_empty)
    as (results & E & Hsize & _ & _ & Hfail).
  - apply NoDup_cons. split.
    + intros H. apply elem_of_cons in H as [H | H]; [discriminate H|].
      apply elem_of_nil in H. exact H.
    + apply NoDup_singleton.
  - apply perm_swap.
  - reflexivity.
  - exists results. split; [exact E|]. split; [exact Hsize|].
    assert (Hall : forall code, code ∈ [py "A"; py "B"] ->
              w_files world_empty !! code = None
              /\ unreachable server_down (url_of code)
              /\ (Download = Download
                  \/ w_files world_empty !! valid_path (py "qrs") (codigo_of code)
                     = None
                  \/ endswith (codigo_of code) local_suffix = true)).
    { intros code Hc. split; [reflexivity|].
      split; [intros n; reflexivity|left; reflexivity]. }
    split; apply (Hfail eq_refl Hall).
    + apply list_elem_of_here.
    + apply list_elem_of_further, list_elem_of_here.
Defined.

(** The spec's scenarios, run on the model. *)

(** QR001 under strategy cache with the server up: the bytes are the
    served ones and land in QR001.png; the second call returns them from
    the cache without a request. *)
Example scenario_cache_then_hit :
  let r1 := get_qr_image server_up render_local (py "QR001") Cache (py "qrs")
              false world_empty in
  let r2 := get_qr_image server_down render_local (py "QR001") Cache (py "qrs")
              false (snd r1) in
  fst r1 = Ok data_server
  /\ f_data <$> w_files (snd r1) !! py "qrs/QR001.png" = Some data_server
  /\ fst r2 = Ok data_server
  /\ requests_made (snd r2) = requests_made (snd r1).
Proof. repeat split; vm_compute; reflexivity. Qed.

(** QR777 under strategy download with fallback allowed and the server
    timing out twice: generated bytes, two requests, one pause, no file. *)
Example scenario_download_fallback :
  get_qr_image server_down render_local (py "QR777") Download (py "qrs")
    true world_empty
  = (Ok data_local,
     log (EvGet (QR_BASE_URL (py "QR777")))
       (log (EvSleep 1)
          (log (EvGet (QR_BASE_URL (py "QR777"))) world_empty))).
Proof. vm_compute. reflexivity. Qed.

(** A key with a slash under strategy cache, the cache directory holding
    no sub-directory: the served bytes cannot be stored, the error of the
    write leaves the call and no file exists afterwards. *)
Example scenario_slash_key :
  let r := get_qr_image server_up render_local (py "https://h/downloadQr/a/b/")
             Cache (py "qrs") false world_empty in
  fst r = Raise (OSError (py "qrs/a/b.png") enoent)
  /\ w_files (snd r) = w_files world_empty
  /\ requests_made (snd r) = 1%nat.
Proof. repeat split; vm_compute; reflexivity. Qed.

(** A payload the renderer cannot encode, with fallback allowed and the
    server down: the renderer's error leaves the call. *)
Example scenario_render_fails :
  fst (get_qr_image server_down render_short (py "QR0000001") Download (py "qrs")
         true world_empty)
  = Raise (RenderError (py "Invalid version")).
Proof. vm_compute. reflexivity. Qed.

(** A request that raises something the retry loop does not catch: the
    exception leaves the call at the first attempt, also with fallback
    allowed. *)
Example scenario_request_escapes :
  let r := get_qr_image server_rejects render_local (py "QR001") Download
             (py "qrs") true world_empty in
  fst r = Raise (RequestsError (py "Failed to parse"))
  /\ requests_made (snd r) = 1%nat.
Proof. repeat split; vm_compute; reflexivity. Qed.

Example codigo_of_examples :
  codigo_of (py "https://evento.mx/downloadQr/ABC123/") = py "ABC123"
  /\ codigo_of (py "http://host/img/a.png") = py "http__host_img_a.png"
  /\ codigo_of (py "QR001") = py "QR001"
  /\ url_of (py "QR001")
     = py "https://evento-directores.qualitaseventos.mx/downloadQr/QR001/"
  /\ valid_path (py "qrs") (py "QR001") = py "qrs/QR001.png"
  /\ fallback_path (py "qrs/") (py "QR001") = py "qrs/QR001_local.png".
Proof. repeat split; vm_compute; reflexivity. Qed.

(** [clean_cache] on a cache with an old file, an old file that cannot be
    unlinked, and a fresh file: one deletion, then none. *)
Example scenario_clean_cache :
  let w := {| w_files :=
                <[py "qrs/old.png" := {| f_data := []; f_mtime := 0 |}]>
                (<[py "qrs/stuck.png" := {| f_data := []; f_mtime := 0 |}]>
                (<[py "qrs/new.png" := {| f_data := []; f_mtime := 2591990 |}]>
                (<[py "qrs/sub/deep.png" := {| f_data := []; f_mtime := 0 |}]> ∅)));
              w_dirs := {[py "qrs"]};
              w_locked := {[py "qrs/stuck.png"]};
              w_write_error := fun _ => None;
              w_clock := 2592001;
              w_log := [] |} in
  fst (clean_cache (py "qrs") 30 w) = 1
  /\ dom (w_files (snd (clean_cache (py "qrs") 30 w)))
     = {[py "qrs/stuck.png"; py "qrs/new.png"; py "qrs/sub/deep.png"]}
  /\ fst (clean_cache (py "qrs") 30 (snd (clean_cache (py "qrs") 30 w))) = 0.
Proof. repeat split; vm_compute; reflexivity. Qed.

End Scenarios.

(** * Further properties *)

(** ** excel.py: columns and rows *)

Section ExcelMore.
Import Excel ExcelSpec MoreSpec.







Lemma filled_not_blank (row : gmap pystr pyval) (k : pystr) :
  filled row k -> is_blank row k = false.
Proof.
  intros (s & E & Hs). unfold is_blank, row_get. rewrite E. simpl.
  destruct s; [contradiction|reflexivity].
Qed.

(** X4.  A row whose first name, last name and QR are non-empty strings
    is never rejected when its has-companion value is falsy, whatever the
    companion fields hold; when the value is truthy it is accepted as
    soon as the three companion fields are non-empty strings too. *)
Theorem validate_row_accepts (row : gmap pystr pyval) (row_index : Z) :
  filled row kPrimerNombre -> filled row kPrimerApellido -> filled row kQR ->
  (truthy (row_get row kLLevaConyugue) = true ->
   filled row kPrimerNombreConyugue /\ filled row kPrimerApellidoConyugue
   /\ filled row kQR_Conyugue) ->
  validate_row row row_index = None.
Proof.
  intros H1 H2 H3 Hc. unfold validate_row, row_errors.
  rewrite !filled_not_blank by assumption. simpl.
  destruct (truthy (row_get row kLLevaConyugue)); [|reflexivity].
  destruct Hc as (C1 & C2 & C3); [reflexivity|].
  rewrite !filled_not_blank by assumption. reflexivity.
Qed.

Lemma validate_row_accepts_witness :
  validate_row
    (<[kPrimerNombre := PyStr (py "Ana")]>
     (<[kPrimerApellido := PyStr (py "Ruiz")]>
     (<[kQR := PyStr (py "QR1")]>
     (<[kLLevaConyugue := PyStr []]> ∅)))) 0 = None.
Proof.
  apply validate_row_accepts.
  - exists (py "Ana"). split; [reflexivity|discriminate].
  - exists (py "Ruiz"). split; [reflexivity|discriminate].
  - exists (py "QR1"). split; [reflexivity|discriminate].
  - intros H. vm_compute in H. discriminate H.
Defined.

Lemma drop_while_spaces (ws s : pystr) :
  Forall (fun c => isspace c = true) ws ->
  drop_while isspace (ws ++ s) = drop_while isspace s.
Proof.
  induction 1 as [|c ws Hc _ IH]; simpl; [reflexivity|]. now rewrite Hc.
Qed.

Lemma drop_while_app_keep (s t : pystr) :
  drop_while isspace s <> [] ->
  drop_while isspace (s ++ t) = drop_while isspace s ++ t.
Proof.
  induction s as [|c s IH]; simpl; [contradiction|].
  destruct (isspace c); [exact IH|reflexivity].
Qed.

Lemma drop_while_all_spaces (s : pystr) :
  drop_while isspace s = [] -> Forall (fun c => isspace c = true) s.
Proof.
  induction s as [|c s IH]; simpl; [constructor|].
  destruct (isspace c) eqn:E; [|discriminate]. auto.
Qed.

(** White space around a string does not change what [strip] returns. *)
Lemma strip_surrounded (ws1 ws2 s : pystr) :
  Forall (fun c => isspace c = true) ws1 ->
  Forall (fun c => isspace c = true) ws2 ->
  strip (ws1 ++ s ++ ws2) = strip s.
Proof.
  intros H1 H2. unfold strip. rewrite drop_while_spaces by assumption.
  destruct (drop_while isspace s) as [|c t] eqn:E.
  - apply drop_while_all_spaces in E.
    rewrite <- (app_nil_r (s ++ ws2)), drop_while_spaces; [reflexivity|].
    now apply Forall_app.
  - rewrite drop_while_app_keep by (rewrite E; discriminate).
    rewrite E, rev_app_distr. f_equal. apply drop_while_spaces.
    now apply Forall_rev.
Qed.

(** X5.  White space before and after a cell's text never changes how
    [parse_boolean] reads it. *)
Theorem parse_boolean_ignores_padding (ws1 ws2 s : pystr) :
  Forall (fun c => isspace c = true) ws1 ->
  Forall (fun c => isspace c = true) ws2 ->
  parse_boolean (PyStr (ws1 ++ s ++ ws2)) = parse_boolean (PyStr s).
Proof.
  intros H1 H2. unfold parse_boolean. simpl.
  now rewrite strip_surrounded.
Qed.

Lemma parse_boolean_ignores_padding_witness :
  parse_boolean (PyStr (py "  " ++ py "Si" ++ [9%N; 160%N]))
  = parse_boolean (PyStr (py "Si")).
Proof.
  apply parse_boolean_ignores_padding; repeat constructor.
Defined.

End ExcelMore.

(** ** qrs.py: the download loop *)

Section DownloadMore.
Import Qrs QrsSpec MoreSpec.

Variable server : pystr -> nat -> response.
Variable generate_qr_local : pystr -> pystr + bytes.

Lemma attempts_log_next (url : pystr) (j : nat) :
  j <> O ->
  attempts_log url j ++ [EvSleep RETRY_DELAY; EvGet url]
  = attempts_log url (S j).
Proof.
  induction j as [|j IH]; [contradiction|]. intros _.
  destruct j as [|j]; [reflexivity|].
  change (attempts_log url (S (S j)))
    with (EvGet url :: EvSleep RETRY_DELAY :: attempts_log url (S j)).
  change (attempts_log url (S (S (S j))))
    with (EvGet url :: EvSleep RETRY_DELAY :: attempts_log url (S (S j))).
  rewrite <- (IH ltac:(discriminate)). reflexivity.
Qed.

Lemma download_loop_attempts (url : pystr) (n : nat) (w : world) :
  let r := download_loop server url n w in
  exists j, (j <= n)%nat
    /\ w_log (snd r) = attempts_log url j ++ w_log w
    /\ (forall i, (S i < j)%nat -> attempt_fails (answer server url w i) = true)
    /\ match fst r with
       | inr (Some data) =>
           (0 < j)%nat
           /\ exists status,
                answer server url w (j - 1) = Http status data
                /\ is_error_status status = false
       | inr None =>
           j = n
           /\ forall i, (i < n)%nat ->
                attempt_fails (answer server url w i) = true
       | inl e =>
           (0 < j)%nat
           /\ exists text,
                answer server url w (j - 1) = OtherError text
                /\ e = RequestsError text
       end.
Proof.
  revert w. induction n as [|k IH]; intros w; simpl.
  - exists O. repeat split; auto; intros; lia.
  - set (w1 := log (EvGet url) w).
    set (w2 := match k with O => w1 | S _ => log (EvSleep RETRY_DELAY) w1 end).
    assert (Hreq : requests_made w2 = S (requests_made w))
      by (subst w2 w1; destruct k; reflexivity).
    assert (Hlog : w_log w2
                   = match k with
                     | O => [EvGet url]
                     | S _ => [EvSleep RETRY_DELAY; EvGet url]
                     end ++ w_log w)
      by (subst w2 w1; destruct k; reflexivity).
    assert (Hans : forall i, answer server url w2 i = answer server url w (S i)).
    { intros i. unfold answer. rewrite Hreq. f_equal. lia. }
    assert (Hretry :
      attempt_fails (answer server url w 0) = true ->
      let r := download_loop server url k w2 in
      exists j, (j <= S k)%nat
        /\ w_log (snd r) = attempts_log url j ++ w_log w
        /\ (forall i, (S i < j)%nat ->
              attempt_fails (answer server url w i) = true)
        /\ match fst r with
           | inr (Some data) =>
               (0 < j)%nat
               /\ exists status,
                    answer server url w (j - 1) = Http status data
                    /\ is_error_status status = false
           | inr None =>
               j = S k
               /\ forall i, (i < S k)%nat ->
                    attempt_fails (answer server url w i) = true
           | inl e =>
               (0 < j)%nat
               /\ exists text,
                    answer server url w (j - 1) = OtherError text
                    /\ e = RequestsError text
           end).
    { intros Hfail. cbv zeta.
      destruct (IH w2) as (j & Hj & Hl & Hf & Hm).
      assert (Hj0 : k <> O -> j <> O).
      { intros Hk ->.
        destruct (fst (download_loop server url k w2)) as [e|[data|]];
          destruct Hm; lia. }
      exists (S j). split; [lia|]. split.
      { rewrite Hl, Hlog. destruct k as [|k'].
        - assert (j = O) by lia. subst j. reflexivity.
        - rewrite app_assoc, attempts_log_next by auto. reflexivity. }
      split.
      { intros i Hi. destruct i as [|i]; [exact Hfail|].
        rewrite <- Hans. apply Hf. lia. }
      destruct (fst (download_loop server url k w2)) as [e|[data|]].
      - destruct Hm as (Hpos & text & Ha & He). split; [lia|].
        exists text. split; [|exact He].
        rewrite Hans in Ha. replace (S j - 1)%nat with (S (j - 1)) by lia.
        exact Ha.
      - destruct Hm as (Hpos & status & Ha & Hs). split; [lia|].
        exists status. split; [|exact Hs].
        rewrite Hans in Ha. replace (S j - 1)%nat with (S (j - 1)) by lia.
        exact Ha.
      - destruct Hm as (-> & Hall). split; [reflexivity|].
        intros i Hi. destruct i as [|i]; [exact Hfail|].
        rewrite <- Hans. apply Hall. lia. }
    assert (Ha0 : answer server url w 0 = server url (requests_made w)).
    { unfold answer. f_equal. lia. }
    rewrite Ha0 in Hretry.
    destruct (server url (requests_made w)) as [| |status content|text] eqn:E;
      [apply Hretry; reflexivity|apply Hretry; reflexivity| |].
    + destruct (is_error_status status) eqn:Es; [apply Hretry; exact Es|].
      simpl. exists 1%nat. split; [lia|]. split; [reflexivity|].
      split; [intros i Hi; lia|]. split; [lia|].
      exists status. change (1 - 1)%nat with O. rewrite Ha0. auto.
    + simpl. exists 1%nat. split; [lia|]. split; [reflexivity|].
      split; [intros i Hi; lia|]. split; [lia|].
      exists text. change (1 - 1)%nat with O. rewrite Ha0. auto.
Qed.

(** X6.  [download_qr_from_url] makes its requests one after the other
    with a pause of [RETRY_DELAY] between two of them and none after the
    last.  Every attempt before the last one made has failed with a
    timeout, a request error or an error status.  The run ends in one of
    three ways: at the first attempt answered with a non-error status,
    whose body is returned; at the first attempt that raises something
    the loop does not catch, which leaves the function; or, every one of
    the [retries] attempts having failed, after exactly [retries]
    requests with nothing returned (no request at all for
    [retries <= 0]). *)
Theorem download_qr_from_url_attempts (url : pystr) (retries : Z) (w : world) :
  let r := download_qr_from_url server url retries w in
  exists j, (j <= Z.to_nat retries)%nat
    /\ w_log (snd r) = attempts_log url j ++ w_log w
    /\ (forall i, (S i < j)%nat -> attempt_fails (answer server url w i) = true)
    /\ match fst r with
       | inr (Some data) =>
           (0 < j)%nat
           /\ exists status,
                answer server url w (j - 1) = Http status data
                /\ is_error_status status = false
       | inr None =>
           j = Z.to_nat retries
           /\ forall i, (i < Z.to_nat retries)%nat ->
                attempt_fails (answer server url w i) = true
       | inl e =>
           (0 < j)%nat
           /\ exists text,
                answer server url w (j - 1) = OtherError text
                /\ e = RequestsError text
       end.
Proof. apply download_loop_attempts. Qed.

End DownloadMore.

(** ** qrs.py: what a resolution leaves behind *)

Section ResolutionMore.
Import Qrs QrsSpec MoreSpec.

Variable server : pystr -> nat -> response.
Variable generate_qr_local : pystr -> pystr + bytes.

Lemma store_lookup_other (strat : strategy) (path p : pystr) (data : bytes)
    (w : world) :
  p <> path -> w_files (store strat path data w) !! p = w_files w !! p.
Proof.
  intros Hne. destruct strat; simpl; [reflexivity|].
  apply lookup_insert_ne. congruence.
Qed.

Lemma store_keeps (strat : strategy) (path p : pystr) (data : bytes)
    (w : world) :
  is_Some (w_files w !! p) -> is_Some (w_files (store strat path data w) !! p).
Proof.
  intros H. destruct strat; simpl; [exact H|].
  destruct (decide (path = p)) as [->|Hne].
  - rewrite lookup_insert_eq. eauto.
  - now rewrite lookup_insert_ne.
Qed.

Lemma store_meta (strat : strategy) (path : pystr) (data : bytes) (w : world) :
  w_locked (store strat path data w) = w_locked w
  /\ w_clock (store strat path data w) = w_clock w.
Proof. destruct strat; auto. Qed.

Lemma prepare_files (strat : strategy) (d : pystr) (w : world) :
  w_files (prepare strat d w) = w_files w
  /\ w_locked (prepare strat d w) = w_locked w
  /\ w_clock (prepare strat d w) = w_clock w
  /\ requests_made (prepare strat d w) = requests_made w.
Proof. destruct strat; auto. Qed.

(** The world a call leaves, in each of its three courses. *)
Lemma get_qr_image_world (q : pystr) (strat : strategy) (d : pystr)
    (af : bool) (w : world) :
  let k := codigo_of q in
  let w' := snd (get_qr_image server generate_qr_local q strat d af w) in
  let w2 := snd (download_qr_from_url server (url_of q) MAX_RETRIES
                   (prepare strat d w)) in
  w_files w2 = w_files w /\ w_locked w2 = w_locked w /\ w_clock w2 = w_clock w
  /\ (w' = log (EvRead q) w
      \/ w' = log (EvRead (valid_path d k)) (makedirs d w)
      \/ w' = w2
      \/ (exists data, w' = store strat (valid_path d k) data w2)
      \/ (exists data, w' = store strat (fallback_path d k) data w2)).
Proof.
  cbv zeta.
  destruct (download_loop_frame server (url_of q) (Z.to_nat MAX_RETRIES)
              (prepare strat d w)) as (F & _ & L & C & _).
  destruct (prepare_files strat d w) as (PF & PL & PC & _).
  unfold download_qr_from_url.
  rewrite F, L, C, PF, PL, PC. repeat split.
  destruct (get_qr_image_cases server generate_qr_local q strat d af w)
    as [(f & _ & ->) | [(_ & _ & f & _ & _ & ->) | (_ & _ & ->)]];
    [auto|auto|].
  destruct (download_or_fallback_world server generate_qr_local q (codigo_of q)
              (url_of q) strat d af (prepare strat d w))
    as [E | [[data E] | [data E]]];
    unfold download_qr_from_url in E; rewrite E; eauto 6.
Qed.

(** A call leaves the conditions of later cache writes as they were. *)
Lemma get_qr_image_write_error (q : pystr) (strat : strategy) (d : pystr)
    (af : bool) (w : world) :
  w_write_error (snd (get_qr_image server generate_qr_local q strat d af w))
  = w_write_error w.
Proof.
  assert (H2 : w_write_error
                 (snd (download_qr_from_url server (url_of q) MAX_RETRIES
                         (prepare strat d w))) = w_write_error w).
  { unfold download_qr_from_url. rewrite download_loop_write_error.
    now destruct strat. }
  destruct (get_qr_image_world q strat d af w)
    as (_ & _ & _ & [-> | [-> | [-> | [[data ->] | [data ->]]]]]);
    try reflexivity; try exact H2; destruct strat; exact H2.
Qed.

(** X7.  A call to [get_qr_image] changes no file other than the two
    cache files of its own key, never removes a file, and under strategy
    download leaves every file as it was; the clock and the unlink
    permissions are untouched. *)
Theorem get_qr_image_frame (q : pystr) (strat : strategy) (d : pystr)
    (af : bool) (w : world) :
  let k := codigo_of q in
  let w' := snd (get_qr_image server generate_qr_local q strat d af w) in
  (forall p, p <> valid_path d k -> p <> fallback_path d k ->
             w_files w' !! p = w_files w !! p)
  /\ (forall p, is_Some (w_files w !! p) -> is_Some (w_files w' !! p))
  /\ (strat = Download -> w_files w' = w_files w)
  /\ w_locked w' = w_locked w /\ w_clock w' = w_clock w.
Proof.
  cbv zeta.
  destruct (get_qr_image_world q strat d af w)
    as (F & L & C & [-> | [-> | [-> | [[data ->] | [data ->]]]]]); simpl.
  1-2: repeat split; auto.
  - rewrite F, L, C. repeat split; auto.
  - repeat split.
    + intros p H1 H2. now rewrite store_lookup_other, F.
    + intros p H. apply store_keeps. now rewrite F.
    + intros ->. exact F.
    + now rewrite (proj1 (store_meta _ _ _ _)).
    + now rewrite (proj2 (store_meta _ _ _ _)).
  - repeat split.
    + intros p H1 H2. now rewrite store_lookup_other, F.
    + intros p H. apply store_keeps. now rewrite F.
    + intros ->. exact F.
    + now rewrite (proj1 (store_meta _ _ _ _)).
    + now rewrite (proj2 (store_meta _ _ _ _)).
Qed.

Lemma requests_made_log_read (p : pystr) (w : world) :
  requests_made (log (EvRead p) w) = requests_made w.
Proof. reflexivity. Qed.


End ResolutionMore.

Section RoundTrips.
Import Qrs QrsSpec MoreSpec.

Variable server server' : pystr -> nat -> response.
Variable render render' : pystr -> pystr + bytes.



End RoundTrips.

(** ** qrs.py: cache keys and file names *)

Section KeysMore.
Import Qrs QrsSpec MoreSpec.

Lemma startswith_has (s p : pystr) (c : N) :
  startswith s p = true -> In c p -> In c s.
Proof.
  intros H Hc. apply startswith_app in H as [t ->].
  apply in_app_iff. now left.
Qed.

Lemma contains_single (s : pystr) (c : N) :
  contains s [c] = false <-> ~ In c s.
Proof.
  induction s as [|x s IH]; simpl; [tauto|].
  rewrite andb_true_r, orb_false_iff, IH, N.eqb_neq. intuition congruence.
Qed.

Lemma bare_code_key (c : pystr) :
  ~ In slash c -> codigo_url c = (c, QR_BASE_URL c).
Proof.
  intros Hc. unfold codigo_url.
  destruct (startswith c (py "http://")) eqn:E1.
  { exfalso. apply Hc. apply (startswith_has _ _ _ E1). vm_compute. tauto. }
  destruct (startswith c (py "https://")) eqn:E2.
  { exfalso. apply Hc. apply (startswith_has _ _ _ E2). vm_compute. tauto. }
  reflexivity.
Qed.

Lemma split_last_from_clean (fuel : nat) (c cur : pystr) :
  ~ In slash c ->
  split_last_from fuel downloadQr (c ++ [slash]) cur = cur.
Proof.
  revert fuel. induction c as [|x c IH]; intros fuel Hc.
  - destruct fuel as [|[|fuel]]; reflexivity.
  - destruct fuel as [|fuel]; [reflexivity|].
    simpl app. cbn [split_last_from].
    assert (Hx : startswith (x :: c ++ [slash]) downloadQr = false).
    { unfold downloadQr. cbn [startswith].
      destruct (N.eqb_spec x 47) as [->|]; [|reflexivity].
      exfalso. apply Hc. now left. }
    rewrite Hx. apply IH. intros H. apply Hc. now right.
Qed.

Lemma startswith_app_long (x y p : pystr) :
  (length p <= length x)%nat -> startswith (x ++ y) p = startswith x p.
Proof.
  revert x. induction p as [|c p IH]; intros x Hl; [reflexivity|].
  destruct x as [|d x]; [simpl in Hl; lia|]. simpl.
  rewrite IH; [reflexivity|]. simpl in Hl. lia.
Qed.

Lemma contains_app_intro (a sub b : pystr) :
  contains (a ++ sub ++ b) sub = true.
Proof.
  induction a as [|x a IH]; simpl.
  - assert (H : startswith (sub ++ b) sub = true)
      by (apply startswith_app; eauto).
    destruct (sub ++ b); simpl; now rewrite H.
  - rewrite IH. apply orb_true_r.
Qed.

(** Scanning from the left, the first occurrence of [sep] in
    [a ++ sep ++ rest] is the one after [a] when none starts inside [a];
    the scan then goes on in [rest]. *)
Lemma split_last_from_skip (sep a : pystr) (fuel : nat) (rest cur : pystr) :
  sep <> [] -> no_match_in sep a = true ->
  (length (a ++ sep ++ rest) <= fuel)%nat ->
  exists fuel',
    split_last_from fuel sep (a ++ sep ++ rest) cur
    = split_last_from fuel' sep rest rest.
Proof.
  intros Hsep. revert fuel cur.
  induction a as [|x a IH]; intros fuel cur Hno Hf.
  - destruct sep as [|s0 sep']; [contradiction|].
    destruct fuel as [|fuel]; [simpl in Hf; lia|].
    exists fuel. cbn [app split_last_from].
    change (s0 :: sep' ++ rest) with ((s0 :: sep') ++ rest).
    rewrite (proj2 (startswith_app _ _) (ex_intro _ rest eq_refl)).
    rewrite drop_app_length. reflexivity.
  - destruct fuel as [|fuel]; [simpl in Hf; lia|].
    cbn [no_match_in] in Hno. apply andb_true_iff in Hno as [Hx Hno].
    apply negb_true_iff in Hx.
    cbn [app split_last_from].
    change (x :: a ++ sep ++ rest) with ((x :: a) ++ sep ++ rest).
    rewrite app_assoc, startswith_app_long, Hx
      by (rewrite length_app; lia).
    apply IH; [exact Hno|]. simpl in Hf. lia.
Qed.

Lemma rstrip_clean (c : pystr) :
  ~ In slash c -> rstrip_char slash (c ++ [slash]) = c.
Proof.
  intros Hc. unfold rstrip_char. rewrite rev_app_distr. simpl.
  assert (H : drop_while (N.eqb slash) (rev c) = rev c).
  { assert (Hr : ~ In slash (rev c)) by now rewrite <- in_rev.
    destruct (rev c) as [|x l]; [reflexivity|]. cbn [drop_while].
    destruct (N.eqb_spec slash x) as [<-|]; [|reflexivity].
    exfalso. apply Hr. now left. }
  change (drop_while (N.eqb slash) (slash :: rev c))
    with (drop_while (N.eqb slash) (rev c)).
  rewrite H. apply rev_involutive.
Qed.

(** X10.  A code without a slash and the download URL built from it name
    the same QR: both give the same cache key and the same URL, hence
    the same cache files and the same request. *)
Theorem code_and_url_share_key (c : pystr) :
  ~ In slash c ->
  codigo_of c = c
  /\ url_of c = QR_BASE_URL c
  /\ codigo_of (url_of c) = c
  /\ url_of (url_of c) = url_of c.
Proof.
  intros Hc. unfold codigo_of, url_of. rewrite (bare_code_key c Hc).
  cbn [fst snd].
  split; [reflexivity|]. split; [reflexivity|].
  assert (Hbase : QR_BASE_URL c = base_host ++ downloadQr ++ (c ++ [slash])).
  { unfold QR_BASE_URL. rewrite !app_assoc. reflexivity. }
  assert (E : codigo_url (QR_BASE_URL c) = (c, QR_BASE_URL c)).
  { unfold codigo_url.
    replace (startswith (QR_BASE_URL c) (py "https://")) with true
      by (unfold QR_BASE_URL; reflexivity).
    rewrite orb_true_r.
    replace (contains (QR_BASE_URL c) downloadQr) with true
      by (symmetry; rewrite Hbase; apply contains_app_intro).
    f_equal. unfold split_last. rewrite Hbase.
    destruct (split_last_from_skip downloadQr base_host
                (length (base_host ++ downloadQr ++ c ++ [slash]))
                (c ++ [slash]) (base_host ++ downloadQr ++ c ++ [slash]))
      as [fuel' ->]; [discriminate|reflexivity|reflexivity|].
    rewrite split_last_from_clean by assumption.
    now apply rstrip_clean. }
  now rewrite E.
Qed.

Lemma code_and_url_share_key_witness :
  codigo_of (url_of (py "QR001")) = py "QR001".
Proof.
  apply (code_and_url_share_key (py "QR001")).
  vm_compute. intuition discriminate.
Defined.

End KeysMore.

Section CacheDirMore.
Import Qrs QrsSpec MoreSpec.

Lemma path_join_relative (d b : pystr) :
  startswith b [slash] = false -> path_join d b = path_join d [] ++ b.
Proof.
  intros Hb. unfold path_join. rewrite Hb.
  change (startswith [] [slash]) with false. cbv iota.
  destruct (match d with [] => true | _ => false end || endswith d [slash])%bool.
  - now rewrite app_nil_r.
  - now rewrite <- !app_assoc.
Qed.

Lemma not_startswith_slash (b : pystr) :
  ~ In slash b -> startswith b [slash] = false.
Proof.
  intros H. destruct b as [|x b]; [reflexivity|]. simpl.
  rewrite andb_true_r. apply N.eqb_neq. intros ->. apply H. now left.
Qed.

Lemma is_child_join (d b : pystr) :
  startswith b [slash] = false -> b <> [] ->
  is_child d (path_join d b) = negb (contains b [slash]).
Proof.
  intros Hb Hne. unfold is_child. rewrite (path_join_relative d b Hb).
  set (pre := path_join d []).
  rewrite (proj2 (startswith_app _ _) (ex_intro _ b eq_refl)).
  rewrite drop_app_length. destruct b; [contradiction|reflexivity].
Qed.

Lemma no_slash_app (k t : pystr) :
  ~ In slash k -> ~ In slash t -> ~ In slash (k ++ t).
Proof. intros H1 H2 [H|H]%in_app_iff; auto. Qed.

(** X11.  The key of a URL without the download segment holds neither a
    slash nor a colon.  For every key without a slash, both cache files
    are named directly inside the cache directory and end in .png, so
    the purge lists them once they exist. *)
Theorem cache_files_location (d : pystr) :
  (forall q,
      (startswith q (py "http://") || startswith q (py "https://"))%bool = true ->
      contains q downloadQr = false ->
      ~ In slash (codigo_of q) /\ ~ In colon (codigo_of q))
  /\ (forall k, ~ In slash k ->
        (is_child d (valid_path d k) && endswith (valid_path d k) png)%bool = true
        /\ (is_child d (fallback_path d k)
            && endswith (fallback_path d k) png)%bool = true).
Proof.
  split.
  - intros q Hh Hc. unfold codigo_of, codigo_url. rewrite Hh, Hc. simpl.
    unfold remove_char, replace_char. split; intros H.
    + apply filter_In in H as [H _]. apply in_map_iff in H as (c & E & _).
      destruct (N.eqb_spec c slash); [discriminate E|]. congruence.
    + apply filter_In in H as [_ H]. discriminate H.
  - assert (Hp : forall k t, ~ In slash k -> ~ In slash t -> t <> [] ->
                   (is_child d (path_join d (k ++ t))
                    && endswith (path_join d (k ++ t)) t)%bool = true).
    { intros k t Hk Ht Hne.
      assert (Hb : ~ In slash (k ++ t)) by now apply no_slash_app.
      rewrite is_child_join;
        [|now apply not_startswith_slash|destruct k, t; try discriminate; tauto].
      rewrite (proj2 (contains_single _ _) Hb). simpl.
      rewrite path_join_relative by now apply not_startswith_slash.
      apply endswith_app. exists (path_join d [] ++ k). now rewrite app_assoc. }
    intros k Hk. unfold valid_path, fallback_path. split.
    + apply Hp; [assumption| |discriminate]. vm_compute. intuition discriminate.
    + replace (endswith (path_join d (k ++ local_png)) png) with true.
      * rewrite andb_true_r.
        specialize (Hp k local_png Hk). apply andb_true_iff in Hp as [Hp _];
          [exact Hp| |discriminate]. vm_compute. intuition discriminate.
      * symmetry.
        rewrite path_join_relative
          by (apply not_startswith_slash, no_slash_app;
              [assumption|vm_compute; intuition discriminate]).
        apply endswith_app. exists (path_join d [] ++ k ++ local_suffix).
        rewrite local_png_split, <- !app_assoc. reflexivity.
Qed.

Lemma cache_files_location_witness :
  (is_child (py "qrs") (valid_path (py "qrs") (py "QR001"))
   && endswith (valid_path (py "qrs") (py "QR001")) png)%bool = true
  /\ ~ In slash (codigo_of (py "http://host/img/a.png")).
Proof.
  destruct (cache_files_location (py "qrs")) as (Hkey & Hflat). split.
  - apply (Hflat (py "QR001")). vm_compute. intuition discriminate.
  - apply (Hkey (py "http://host/img/a.png")); reflexivity.
Defined.

Lemma purge_count (paths : list pystr) (now : Q) (age deleted : Z) (w : world) :
  let r := purge paths now age deleted w in
  fst r + Z.of_nat (size (w_files (snd r)))
  = deleted + Z.of_nat (size (w_files w)).
Proof.
  revert deleted w. induction paths as [|q rest IH]; intros deleted w; simpl;
    [reflexivity|].
  destruct (w_files w !! q) as [f|] eqn:Eq; [|apply IH].
  destruct (too_old now age f); [|apply IH].
  destruct (bool_decide (q ∈ w_locked w)); [apply IH|].
  specialize (IH (deleted + 1) (unlink q w)). cbv zeta in IH. rewrite IH.
  simpl. rewrite map_size_delete, Eq.
  assert (size (w_files w) <> O).
  { intros H0. apply map_size_empty_inv in H0. rewrite H0 in Eq.
    now rewrite lookup_empty in Eq. }
  lia.
Qed.

Lemma purge_files (paths : list pystr) (now : Q) (age deleted : Z) (w : world)
    (p : pystr) :
  w_files (snd (purge paths now age deleted w)) !! p
  = match w_files w !! p with
    | Some f =>
        if (bool_decide (p ∈ paths) && too_old now age f
            && negb (bool_decide (p ∈ w_locked w)))%bool
        then None else Some f
    | None => None
    end.
Proof.
  revert deleted w. induction paths as [|q rest IH]; intros deleted w.
  - simpl. destruct (w_files w !! p); reflexivity.
  - assert (Hskip :
      (forall f, w_files w !! q = Some f ->
                 (too_old now age f && negb (bool_decide (q ∈ w_locked w)))%bool
                 = false) ->
      w_files (snd (purge rest now age deleted w)) !! p
      = match w_files w !! p with
        | Some f =>
            if (bool_decide (p ∈ q :: rest) && too_old now age f
                && negb (bool_decide (p ∈ w_locked w)))%bool
            then None else Some f
        | None => None
        end).
    { intros Hq. rewrite IH. destruct (w_files w !! p) as [f|] eqn:Ep; [|reflexivity].
      destruct (decide (p = q)) as [->|Hne].
      - pose proof (Hq f Ep) as H.
        destruct (too_old now age f), (bool_decide (q ∈ w_locked w));
          try discriminate H; rewrite ?andb_false_r; reflexivity.
      - replace (bool_decide (p ∈ q :: rest)) with (bool_decide (p ∈ rest));
          [reflexivity|].
        apply bool_decide_ext. rewrite elem_of_cons. tauto. }
    cbn [purge].
    destruct (w_files w !! q) as [f|] eqn:Eq;
      [|apply Hskip; intros f; discriminate].
    destruct (too_old now age f) eqn:Eo;
      [|apply Hskip; intros f' [= <-]; rewrite ?Eo; reflexivity].
    destruct (bool_decide (q ∈ w_locked w)) eqn:El;
      [apply Hskip; intros f' [= <-]; rewrite ?Eo, ?El; reflexivity|].
    rewrite IH. cbn [unlink w_files w_locked].
    destruct (decide (p = q)) as [->|Hne].
    + rewrite lookup_delete_eq, Eq, Eo, El.
      rewrite bool_decide_eq_true_2 by constructor. reflexivity.
    + rewrite lookup_delete_ne by congruence.
      destruct (w_files w !! p) as [f'|]; [|reflexivity].
      replace (bool_decide (p ∈ q :: rest)) with (bool_decide (p ∈ rest));
        [reflexivity|].
      apply bool_decide_ext. rewrite elem_of_cons. tauto.
Qed.

(** X12.  When the cache directory exists, [clean_cache] removes exactly
    the files that lie directly in it, end in .png, are older than the
    threshold and can be unlinked; every other file is left as it is, and
    the number returned is the number of files that disappeared.  When
    the directory does not exist nothing happens and 0 is returned. *)
Theorem clean_cache_effect (d : pystr) (max_age_days : Z) (w : world) :
  let r := clean_cache d max_age_days w in
  (path_exists w d = false -> r = (0, w))
  /\ (path_exists w d = true ->
      (forall p,
          w_files (snd r) !! p
          = match w_files w !! p with
            | Some f => if doomed d max_age_days w p f then None else Some f
            | None => None
            end)
      /\ fst r = Z.of_nat (size (w_files w)) - Z.of_nat (size (w_files (snd r)))
      /\ 0 <= fst r)
  /\ w_dirs (snd r) = w_dirs w /\ w_locked (snd r) = w_locked w
  /\ w_clock (snd r) = w_clock w.
Proof.
  cbv zeta. unfold clean_cache.
  destruct (path_exists w d) eqn:Ex; simpl.
  2: { repeat split; auto; discriminate. }
  set (age := max_age_days * 24 * 60 * 60).
  destruct (purge_frame (glob_png d w) (w_clock w) age 0 w) as (D & L & C & F).
  pose proof (purge_count (glob_png d w) (w_clock w) age 0 w) as Hc.
  cbv zeta in Hc.
  split; [discriminate|]. split; [|auto].
  intros _. split; [|split].
  - intros p. rewrite purge_files.
    destruct (w_files w !! p) as [f|] eqn:Ep; [|reflexivity].
    unfold doomed. fold age.
    replace (bool_decide (p ∈ glob_png d w))
      with (is_child d p && endswith p png)%bool; [reflexivity|].
    symmetry. destruct (is_child d p && endswith p png)%bool eqn:Eg.
    + apply bool_decide_eq_true. apply list_elem_of_In, glob_png_spec. eauto.
    + apply bool_decide_eq_false. intros H.
      apply list_elem_of_In, glob_png_spec in H as [H _]. congruence.
  - lia.
  - assert (size (w_files (snd (purge (glob_png d w) (w_clock w) age 0 w)))
            <= size (w_files w))%nat; [|lia].
    apply map_subseteq_size, map_subseteq_spec. exact F.
Qed.

Lemma clean_cache_effect_witness :
  clean_cache (py "nowhere") 30 world_both = (0, world_both)
  /\ fst (clean_cache (py "qrs") (-1) world_both) = 2.
Proof.
  split.
  - apply (clean_cache_effect (py "nowhere") 30 world_both). reflexivity.
  - destruct (clean_cache_effect (py "qrs") (-1) world_both)
      as (_ & H & _).
    destruct H as (_ & Hn & _); [reflexivity|]. rewrite Hn.
    vm_compute. reflexivity.
Defined.

End CacheDirMore.

(** ** qrs.py: the prefetch pool *)

Section PoolMore.
Import Qrs QrsSpec MoreSpec.

Variable server : pystr -> nat -> response.
Variable render : pystr -> pystr + bytes.

Lemma remove_dups_shorter (l : list pystr) :
  (length (remove_dups l) <= length l)%nat.
Proof.
  induction l as [|x l IH]; simpl; [lia|].
  destruct (decide_rel elem_of x l); simpl; lia.
Qed.

Lemma size_list_to_set_le (l : list pystr) :
  (size (list_to_set l : gset pystr) <= length l)%nat.
Proof.
  replace (list_to_set l : gset pystr) with (list_to_set (remove_dups l) : gset pystr).
  - rewrite size_list_to_set by apply NoDup_remove_dups.
    apply remove_dups_shorter.
  - apply set_eq. intros x.
    rewrite !elem_of_list_to_set. apply elem_of_remove_dups.
Qed.

(** X13.  [prefetch_qrs] on a list with repeated identifiers returns one
    key per distinct identifier, so never more keys than identifiers; the
    value kept for an identifier is the outcome of the task for it that
    completed last, run in the world the earlier tasks left. *)
Theorem prefetch_last_write_wins (order codes : list pystr) (strat : strategy)
    (d : pystr) (workers : Z) (af : bool) (w : world) :
  order ≡ₚ codes -> 0 < workers ->
  exists results,
    fst (prefetch_qrs server render order codes strat d workers af w)
    = inr results
    /\ dom results = list_to_set codes
    /\ (size results <= length codes)%nat
    /\ forall l1 code l2,
         order = l1 ++ code :: l2 -> code ∉ l2 ->
         results !! code
         = Some (recorded
                   (fst (get_qr_image server render code strat d af
                           (after_pool server render l1 strat d af w)))).
Proof.
  intros Hperm Hw. unfold prefetch_qrs.
  destruct (Z.leb_spec workers 0) as [|_]; [lia|].
  pose proof (run_pool_dom server render order strat d af ∅ w) as Hdom.
  destruct (run_pool server render order strat d af ∅ w) as [results w'] eqn:E.
  simpl in *. exists results. split; [reflexivity|].
  assert (Hdom' : dom results = list_to_set codes).
  { rewrite Hdom, dom_empty_L, (list_to_set_perm_L _ _ Hperm).
    apply union_empty_l_L. }
  split; [exact Hdom'|]. split.
  - rewrite <- size_dom, Hdom'. apply size_list_to_set_le.
  - intros l1 code l2 -> Hn.
    replace results
      with (fst (run_pool server render (l1 ++ code :: l2) strat d af ∅ w))
      by now rewrite E.
    now apply run_pool_last.
Qed.

End PoolMore.

Section WarmCache.
Import Qrs QrsSpec MoreSpec.

Variable server server' : pystr -> nat -> response.
Variable render render' : pystr -> pystr + bytes.



Lemma after_pool_write_error (order : list pystr) (strat : strategy)
    (d : pystr) (af : bool) (w : world) :
  w_write_error (after_pool server render order strat d af w)
  = w_write_error w.
Proof.
  revert w. induction order as [|c rest IH]; intros w; [reflexivity|].
  rewrite after_pool_cons, IH. apply get_qr_image_write_error.
Qed.



End WarmCache.

(** ** excel.py: cells that are not text *)

Section CellsMore.
Import Excel ExcelSpec MoreSpec.

Lemma string_of_uint_chars (d : Decimal.uint) :
  Forall numeric_char (py (DecimalString.NilEmpty.string_of_uint d)).
Proof.
  induction d; simpl; constructor; auto; right; vm_compute; intuition discriminate.
Qed.

Lemma str_of_Z_chars (z : Z) : Forall numeric_char (str_of_Z z).
Proof.
  unfold str_of_Z. destruct (Z.to_int z) as [d|d]; simpl.
  - apply string_of_uint_chars.
  - constructor; [now left|apply string_of_uint_chars].
Qed.

Lemma numeric_char_plain (c : N) :
  numeric_char c -> isspace c = false /\ upper_cp c = [c].
Proof.
  intros [-> | [H1 H2]]; [split; reflexivity|].
  assert (Hc : In c [48; 49; 50; 51; 52; 53; 54; 55; 56; 57]%N).
  { simpl. lia. }
  simpl in Hc.
  repeat (destruct Hc as [<- | Hc]; [split; reflexivity|]). destruct Hc.
Qed.

Lemma numeric_strip_upper (s : pystr) :
  Forall numeric_char s -> upper (strip s) = s.
Proof.
  intros H.
  assert (Hd : forall t, Forall numeric_char t -> drop_while isspace t = t).
  { intros t Ht. destruct Ht as [|c t Hc _]; [reflexivity|]. simpl.
    now rewrite (proj1 (numeric_char_plain c Hc)). }
  unfold strip. rewrite (Hd s H), Hd by now apply Forall_rev.
  rewrite rev_involutive. unfold upper.
  induction H as [|c s Hc _ IH]; [reflexivity|]. simpl.
  now rewrite (proj2 (numeric_char_plain c Hc)), IH.
Qed.

Lemma py_inj (s t : string) : py s = py t -> s = t.
Proof.
  unfold py. intros H.
  rewrite <- (string_of_list_ascii_of_string s),
          <- (string_of_list_ascii_of_string t).
  f_equal. revert H.
  generalize (list_ascii_of_string s) (list_ascii_of_string t).
  induction l as [|a l IH]; intros [|b l']; simpl; try discriminate; auto.
  intros [= Hab Hl]. f_equal; [|now apply IH].
  rewrite <- (ascii_N_embedding a), <- (ascii_N_embedding b). now f_equal.
Qed.

Lemma str_of_Z_one (z : Z) : str_of_Z z = py "1" -> z = 1.
Proof.
  unfold str_of_Z. intros H. apply py_inj in H.
  pose proof (DecimalString.NilEmpty.isi (Z.to_int z)) as Hi.
  rewrite H in Hi. simpl in Hi. injection Hi as Hi.
  rewrite <- (DecimalZ.of_to z), <- Hi. reflexivity.
Qed.

(** X15.  For cells that are not text: a boolean cell parses to itself,
    and an integer cell parses to true exactly when it is 1 (so 0, -1,
    11 and every other integer mean no companion). *)
Theorem parse_boolean_typed_cells :
  (forall b : bool, parse_boolean (PyBool b) = b)
  /\ (forall z : Z, parse_boolean (PyInt z) = true <-> z = 1).
Proof.
  split; [intros [|]; vm_compute; reflexivity|].
  intros z. split; [|intros ->; vm_compute; reflexivity].
  unfold parse_boolean. simpl.
  rewrite numeric_strip_upper by apply str_of_Z_chars.
  intros H. apply bool_decide_eq_true in H.
  pose proof (str_of_Z_chars z) as Hc.
  unfold TRUE_VALUES in H.
  repeat (apply elem_of_cons in H as [H | H]).
  all: try (apply elem_of_nil in H; contradiction).
  all: try (now apply str_of_Z_one).
  all: exfalso; rewrite H in Hc; apply Forall_cons in Hc as [Hc _];
    unfold numeric_char in Hc; destruct Hc as [Hc | Hc];
    [discriminate Hc | lia].
Qed.

End CellsMore.

(** ** cli.py: what the callers do with the QR functions *)

Section CliMore.
Import Excel ExcelSpec Qrs QrsSpec MoreSpec Cli.

Lemma filled_truthy (e : gmap pystr pyval) (k : pystr) :
  filled e k ->
  truthy (row_get e k) = true
  /\ exists s, row_get e k = PyStr s /\ s <> [].
Proof.
  intros (s & E & Hs). unfold row_get. rewrite E. simpl.
  split; [destruct s; [contradiction|reflexivity]|eauto].
Qed.

Lemma row_get_of (e : gmap pystr pyval) (k : pystr) (v : pyval) :
  e !! k = Some v -> row_get e k = v.
Proof. intros H. exact (f_equal (default PyNone) H). Qed.

Lemma attendees_invariant (df : dataframe) attendees :
  read_attendees df = inr attendees -> Forall record_invariant attendees.
Proof.
  intros Hread. apply read_attendees_rows in Hread. subst attendees.
  apply Forall_forall. intros e He.
  apply read_rows_accepted in He as (idx & row & -> & Hv).
  apply accepted_entry_invariant. eapply validate_row_none, Hv.
Qed.

(** X16.  The identifiers collected for the prefetch from the attendees
    [read_attendees] returned are non-empty strings: the QR of every
    attendee, and the companion's QR exactly for the attendees that bring
    one; their number is the number of attendees plus the number of
    companions. *)
Theorem all_codes_of_attendees (df : dataframe) attendees :
  read_attendees df = inr attendees ->
  Forall (fun c => exists s, c = PyStr s /\ s <> []) (all_codes attendees)
  /\ length (all_codes attendees)
     = (length attendees
        + length (List.filter (fun e => truthy (row_get e kLLevaConyugue))
                    attendees))%nat
  /\ forall e, e ∈ attendees ->
       row_get e kQR ∈ all_codes attendees
       /\ (truthy (row_get e kLLevaConyugue) = true ->
           row_get e kQR_Conyugue ∈ all_codes attendees).
Proof.
  intros Hread. apply attendees_invariant in Hread.
  induction Hread as [|e attendees He _ IH].
  - split; [apply Forall_nil_2|]. split; [reflexivity|].
    intros e H. apply elem_of_nil in H. contradiction.
  - destruct IH as (IH1 & IH2 & IH3).
    destruct He as (_ & _ & Hqr & b & Eb & Hb).
    destruct (filled_truthy e kQR Hqr) as (Tq & sq & Eq & Nq).
    assert (Hflag : truthy (row_get e kLLevaConyugue) = b)
      by now rewrite (row_get_of _ _ _ Eb).
    assert (Hhead :
      all_codes (e :: attendees)
      = (row_get e kQR :: (if b then [row_get e kQR_Conyugue] else []))
        ++ all_codes attendees).
    { unfold all_codes at 1. cbn [flat_map]. fold (all_codes attendees).
      rewrite Tq, Hflag. destruct b; [|reflexivity].
      destruct Hb as (_ & _ & Hc); [reflexivity|].
      now rewrite (proj1 (filled_truthy e kQR_Conyugue Hc)). }
    rewrite Hhead. split; [|split].
    + apply Forall_app. split; [|exact IH1].
      constructor; [eauto|].
      destruct b; [|constructor].
      destruct Hb as (_ & _ & Hc); [reflexivity|].
      destruct (filled_truthy e kQR_Conyugue Hc) as (_ & sc & Ec & Nc).
      constructor; [eauto|constructor].
    + rewrite length_app, IH2. cbn [List.filter]. rewrite Hflag.
      destruct b; simpl; lia.
    + intros e' [-> | He']%elem_of_cons.
      * split; [apply elem_of_app; left; constructor|].
        rewrite Hflag. intros ->.
        apply elem_of_app. left. apply list_elem_of_further. constructor.
      * destruct (IH3 e' He') as [H1 H2].
        split; [apply elem_of_app; now right|].
        intros Ht. apply elem_of_app. right. now apply H2.
Qed.

Variable server : pystr -> nat -> response.
Variable render : pystr -> pystr + bytes.

Lemma bare_code_derivation (q : pystr) :
  startswith q (py "http") = false -> codigo_url q = (q, QR_BASE_URL q).
Proof.
  intros H. unfold codigo_url.
  assert (Hp : forall t, startswith q (py "http" ++ t) = false).
  { intros t. destruct (startswith q (py "http" ++ t)) eqn:E; [|reflexivity].
    apply startswith_app in E as [u ->]. rewrite <- app_assoc in H.
    rewrite (proj2 (startswith_app _ _) (ex_intro _ (t ++ u) eq_refl)) in H.
    discriminate H. }
  change (py "http://") with (py "http" ++ py "://").
  change (py "https://") with (py "http" ++ py "s://").
  now rewrite !Hp.
Qed.

(** X17.  For a bare code (no "http" prefix, no "downloadQr" inside) that
    is not a local file, the provenance tally of process_attendees never
    says "downloaded".  Under strategy cache with fallback disallowed,
    every QR that was obtained counts as "from cache", also when it has
    just been downloaded; under strategy download with nothing at
    {code}.png in the cache directory, a QR served by the server counts as
    "generated locally". *)
Theorem bare_code_tally (q d : pystr) (w : world) :
  startswith q (py "http") = false ->
  contains q (py "downloadQr") = false ->
  w_files w !! q = None ->
  (forall data,
      fst (get_qr_image server render q Cache d false w) = Ok data ->
      qr_tally q d (snd (get_qr_image server render q Cache d false w))
      = DesdeCache)
  /\ (reachable server (url_of q) ->
      path_exists w (path_join d (q ++ png)) = false ->
      (exists data i status,
          fst (get_qr_image server render q Download d false w) = Ok data
          /\ server (url_of q) i = Http status data)
      /\ qr_tally q d (snd (get_qr_image server render q Download d false w))
         = GeneradoLocal).
Proof.
  intros Hh Hc Hq.
  pose proof (bare_code_derivation q Hh) as Hk.
  assert (Ek : codigo_of q = q) by (unfold codigo_of; now rewrite Hk).
  unfold qr_tally. rewrite Hh, Hc. simpl orb. cbv iota.
  change (path_join d (q ++ png)) with (valid_path d q).
  split.
  - intros data Hok.
    assert (Hex : is_Some (w_files (snd (get_qr_image server render q Cache d
                                           false w)) !! valid_path d q)).
    { destruct (get_qr_image_cases server render q Cache d false w)
        as [(f & Ef & _) | [(_ & _ & f & Ef & _ & E) | (_ & _ & E)]];
        [congruence| |]; rewrite Ek in *.
      - rewrite E. simpl. eauto.
      - rewrite E in Hok |- *.
        destruct (download_or_fallback_cases server render q q (url_of q) Cache d
                    false (prepare Cache d w))
          as [(e & _ & E') | [(b & bs & w2 & _ & Ew & E')
             | [(b & bs & e & _ & _ & E')
             | [(_ & _ & E') | [(? & _ & ? & _)
             | [(? & ? & _ & ? & _) | (? & ? & _ & ? & _)]]]]]];
          try discriminate; rewrite E' in Hok |- *; try discriminate Hok.
        apply cache_write_ok in Ew as [-> _].
        cbn [snd store write_file w_files]. rewrite lookup_insert_eq. eauto. }
    unfold path_exists.
    rewrite (bool_decide_eq_true_2 _ Hex), orb_true_r. reflexivity.
  - intros Hr Hne.
    destruct (get_qr_image_cases server render q Download d false w)
      as [(f & Ef & _) | [(_ & ? & _) | (_ & _ & E)]];
      [congruence|discriminate|]. rewrite Ek in E. rewrite E.
    destruct (download_loop_reachable server (url_of q)
                (Z.to_nat MAX_RETRIES) w Hr ltac:(discriminate))
      as (b & bs & Edl).
    destruct (download_loop_served server (url_of q) (Z.to_nat MAX_RETRIES)
                w (b :: bs) Edl) as (i & status & Es & _).
    destruct (download_loop_frame server (url_of q) (Z.to_nat MAX_RETRIES) w)
      as (F & D & _).
    destruct (download_or_fallback_cases server render q q (url_of q) Download d
                false (prepare Download d w))
      as [(e & Ee & _) | [(b' & bs' & w2 & Eb & Ew & E')
         | [(b' & bs' & e & _ & Ew & _)
         | [([Hn|Hn] & _) | [(? & [Hn|Hn] & _)
         | [(? & ? & [Hn|Hn] & _) | (? & ? & [Hn|Hn] & _)]]]]]];
      unfold download_qr_from_url in *;
      change (prepare Download d w) with w in *; try congruence.
    2: { apply cache_write_error in Ew as [Ew _]. discriminate Ew. }
    apply cache_write_ok in Ew as [-> _].
    rewrite E'. rewrite Edl in Eb. injection Eb as <- <-.
    cbn [fst snd store]. split; [eauto|].
    unfold path_exists in *. rewrite F, D, Hne. reflexivity.
Qed.

End CliMore.

(** ** Further scenarios *)

Section MoreScenarios.
Import Excel ExcelSpec Qrs QrsSpec MoreSpec Cli.

Lemma prefetch_last_write_wins_witness :
  exists results,
    fst (prefetch_qrs server_flaky render_local [py "A"; py "A"]
           [py "A"; py "A"] Download (py "qrs") 8 false world_empty)
    = inr results
    /\ (size results <= 2)%nat.
Proof.
  destruct (prefetch_last_write_wins server_flaky render_local
              [py "A"; py "A"] [py "A"; py "A"] Download (py "qrs") 8 false
              world_empty) as (results & E & _ & Hs & _).
  - reflexivity.
  - reflexivity.
  - exists results. split; [exact E|exact Hs].
Defined.



Lemma download_qr_from_url_attempts_witness :
  exists j, (j <= 2)%nat
    /\ w_log (snd (download_qr_from_url server_flaky (py "u") 2 world_empty))
       = attempts_log (py "u") j ++ w_log world_empty.
Proof.
  destruct (download_qr_from_url_attempts server_flaky (py "u") 2 world_empty)
    as (j & Hj & Hl & _).
  exists j. split; [exact Hj|exact Hl].
Defined.

Lemma get_qr_image_frame_witness :
  w_files (snd (get_qr_image server_up render_local (py "QR001") Download
                  (py "qrs") false world_both))
  = w_files world_both.
Proof.
  destruct (get_qr_image_frame server_up render_local (py "QR001") Download
              (py "qrs") false world_both) as (_ & _ & H & _).
  apply H. reflexivity.
Defined.



Lemma parse_boolean_typed_cells_witness :
  parse_boolean (PyInt 1) = true.
Proof.
  apply (proj2 parse_boolean_typed_cells 1). reflexivity.
Defined.

Lemma all_codes_of_attendees_witness :
  length (all_codes [make_entry example_cells]) = 2%nat.
Proof.
  destruct (all_codes_of_attendees example_df [make_entry example_cells])
    as (_ & H & _).
  - vm_compute. reflexivity.
  - rewrite H. vm_compute. reflexivity.
Defined.

Lemma bare_code_tally_witness :
  qr_tally (py "QR001") (py "qrs")
    (snd (get_qr_image server_up render_local (py "QR001") Download (py "qrs")
            false world_empty))
  = GeneradoLocal.
Proof.
  destruct (bare_code_tally server_up render_local (py "QR001") (py "qrs")
              world_empty) as (_ & H).
  - reflexivity.
  - reflexivity.
  - reflexivity.
  - destruct H as (_ & Ht).
    + intros n. exists 200, Byte.x02, []. split; reflexivity.
    + reflexivity.
    + exact Ht.
Defined.

End MoreScenarios.
